(** * webhookPOC: the mutating admission webhook of [webhook.go]

    A shallow embedding of the handler [serveMutate], the decision function
    [mutate], the error writer [writeAdmissionError], the path escaping
    [escapeJSONPointer] and the mock label source [getLabelsFromAPI],
    followed by the properties the design document states about them.

    Conventions.
    - A Go [string] is a sequence of bytes: [string] of the Standard
      Library (a list of [ascii]).  A Go [[]byte] is [list byte].
    - A Go [map[string]string] may be [nil]: [option (gmap string string)],
      [None] being the nil map.
    - A Go [error] is seen through its [Error()] text.
    - A call that may panic returns an [outcome].
    - [encoding/json], the order in which [range] visits a map and the
      label source are what the handler gets from outside: they are the
      fields of an environment [Env], and the theorems hold for every
      environment. *)

From Stdlib Require Import Ascii ZArith Lia.
From Stdlib Require String Strings.Byte.
From stdpp Require Import base option list gmap fin_maps strings.

Local Open Scope Z_scope.

(** stdpp blocks the unfolding of string concatenation; the proofs below
    compute with it. *)
Local Arguments String.append !_ _ / : simpl nomatch.

(** ** Go's [strings] package *)

Module strings.

(** [strings.HasPrefix(s, prefix)]. *)
Fixpoint HasPrefix (s prefix : string) {struct prefix} : bool :=
  match prefix with
  | EmptyString => true
  | String p prefix' =>
      match s with
      | EmptyString => false
      | String c s' => if decide (c = p) then HasPrefix s' prefix' else false
      end
  end.

(** The scan of [strings.ReplaceAll(s, old, new)] for a non-empty [old]:
    left to right, non-overlapping.  [skip] counts the bytes of a match
    that are still to be jumped over. *)
Fixpoint replaceFrom (old new : string) (skip : nat) (s : string) : string :=
  match s with
  | EmptyString => EmptyString
  | String c s' =>
      match skip with
      | S k => replaceFrom old new k s'
      | O =>
          if HasPrefix s old
          then new +:+ replaceFrom old new (Nat.pred (String.length old)) s'
          else String c (replaceFrom old new O s')
      end
  end.

(** With an empty [old], [strings.ReplaceAll] inserts [new] before every
    rune and at the end; the webhook never asks for it and the insertion is
    done here before every byte. *)
Fixpoint insertAround (new s : string) : string :=
  match s with
  | EmptyString => new
  | String c s' => new +:+ String c (insertAround new s')
  end.

(** [strings.ReplaceAll(s, old, new)]. *)
Definition ReplaceAll (s old new : string) : string :=
  match old with
  | EmptyString => insertAround new s
  | _ => replaceFrom old new O s
  end.

End strings.

(** ** [escapeJSONPointer] *)

Definition escapeJSONPointer (s : string) : string :=
  let s := strings.ReplaceAll s "~" "~0" in
  let s := strings.ReplaceAll s "/" "~1" in
  s.

(** The decoding of a reference token (RFC 6901, section 4): first every
    [~1] becomes [/], then every [~0] becomes [~].  The webhook has no
    decoder; whoever applies the patch does this. *)
Definition unescapeJSONPointer (s : string) : string :=
  let s := strings.ReplaceAll s "~1" "/" in
  let s := strings.ReplaceAll s "~0" "~" in
  s.

(** Replacing byte by byte: every byte [x] becomes [f x]. *)
Fixpoint substBytes (f : ascii → string) (s : string) : string :=
  match s with
  | EmptyString => EmptyString
  | String x s' => f x +:+ substBytes f s'
  end.

(** The escaping of one byte, and of a string byte by byte. *)
Definition escapeByte (c : ascii) : string :=
  if decide (c = "~"%char) then "~0"
  else if decide (c = "/"%char) then "~1"
  else String c EmptyString.

Definition escapeBytes (s : string) : string := substBytes escapeByte s.

(** After the first pass of the decoder only the tildes are still
    encoded. *)
Definition tildeOnly (x : ascii) : string :=
  if decide (x = "~"%char) then "~0" else String x EmptyString.

Fixpoint hasSlash (s : string) : bool :=
  match s with
  | EmptyString => false
  | String c s' => if decide (c = "/"%char) then true else hasSlash s'
  end.

(** ** Data model *)

Abbreviation bytes := (list Byte.byte).
Abbreviation error := string (only parsing).
Abbreviation labelmap := (gmap string string).

Global Instance byte_eq_dec : EqDecision Byte.byte :=
  Stdlib.Strings.Byte.byte_eq_dec.

(** A Go call that returns [(value, error)]. *)
Inductive result (A : Type) : Type :=
  | Ok (a : A)
  | Err (e : error).
Arguments Ok {A} a.
Arguments Err {A} e.

(** A Go call that returns or panics. *)
Inductive outcome (A : Type) : Type :=
  | Return (a : A)
  | Panic (msg : string).
Arguments Return {A} a.
Arguments Panic {A} msg.

Definition nilDereference : string :=
  "runtime error: invalid memory address or nil pointer dereference".

(** [metav1.TypeMeta], [metav1.Status] (the field the webhook fills). *)
Record TypeMeta := { APIVersion : string; tm_Kind : string }.
Record Status := { Message : string }.

(** [metav1.GroupVersionKind], [runtime.RawExtension]. *)
Record GroupVersionKind := { Group : string; Version : string; Kind : string }.
Record RawExtension := { Raw : bytes }.

(** [admissionv1.AdmissionRequest]: the fields the webhook reads. *)
Record AdmissionRequest := {
  req_UID : string;
  req_Kind : GroupVersionKind;
  req_Object : RawExtension
}.

Definition PatchTypeJSONPatch : string := "JSONPatch".

(** [admissionv1.AdmissionResponse].  [Patch] is a byte slice: the empty
    list is the nil slice, which the encoder leaves out of the document. *)
Record AdmissionResponse := {
  resp_UID : string;
  Allowed : bool;
  Result : option Status;
  Patch : bytes;
  PatchType : option string
}.

(** [admissionv1.AdmissionReview]: [Request] and [Response] are pointers. *)
Record AdmissionReview := {
  review_TypeMeta : TypeMeta;
  Request : option AdmissionRequest;
  Response : option AdmissionResponse
}.

(** [corev1.Pod]: its [ObjectMeta.Labels], a map that may be nil. *)
Record Pod := { Labels : option labelmap }.

(** One element of [patches]: a [map[string]interface{}] with the keys
    [op], [path] and [value]; the value is a string or a string map. *)
Inductive PatchValue : Type :=
  | StringValue (s : string)
  | MapValue (m : labelmap).

Record PatchOperation := {
  op : string;
  path : string;
  value : PatchValue
}.

Global Instance PatchValue_eq_dec : EqDecision PatchValue.
Proof. solve_decision. Defined.

Global Instance PatchOperation_eq_dec : EqDecision PatchOperation.
Proof. solve_decision. Defined.

(** ** [http.ResponseWriter] *)

(** What [net/http] keeps of a response: the header map of the handler, the
    status line once written together with the snapshot of the header map
    taken then ([rw_sent]), and the body.  Headers set after the status
    line are not in the snapshot and are not sent; what the server adds to
    the snapshot on the wire is [wireContentType] below.  The body is kept
    as the sequence of JSON documents written to it, each standing for its
    [json.Marshal] encoding; writing the nil slice adds nothing. *)
Record ResponseWriter := {
  rw_header : gmap string string;
  rw_status : option Z;
  rw_sent : gmap string string;
  rw_body : list AdmissionReview
}.

Definition newResponseWriter : ResponseWriter :=
  {| rw_header := ∅; rw_status := None; rw_sent := ∅; rw_body := [] |}.

Definition StatusOK : Z := 200.
Definition StatusBadRequest : Z := 400.
Definition StatusInternalServerError : Z := 500.

(** [w.Header().Set(k, v)]. *)
Definition HeaderSet (k v : string) (w : ResponseWriter) : ResponseWriter :=
  {| rw_header := <[k := v]> (rw_header w); rw_status := rw_status w;
     rw_sent := rw_sent w; rw_body := rw_body w |}.

(** [w.WriteHeader(code)]: a second call is ignored. *)
Definition WriteHeader (code : Z) (w : ResponseWriter) : ResponseWriter :=
  match rw_status w with
  | Some _ => w
  | None =>
      {| rw_header := rw_header w; rw_status := Some code;
         rw_sent := rw_header w; rw_body := rw_body w |}
  end.

(** [w.Write(b)]: writes the status line first if nobody did. *)
Definition Write (b : list AdmissionReview) (w : ResponseWriter)
  : ResponseWriter :=
  let w := WriteHeader StatusOK w in
  {| rw_header := rw_header w; rw_status := rw_status w;
     rw_sent := rw_sent w; rw_body := rw_body w ++ b |}.

(** ** What the handler gets from outside *)

Record Env := {
  (** [json.Unmarshal(body, &reviewReq)]: the review after the call and
      the error, if any. *)
  unmarshalReview : bytes → AdmissionReview * option error;
  (** [json.Unmarshal(req.Object.Raw, &pod)]. *)
  unmarshalPod : bytes → Pod * option error;
  (** [json.Marshal(patches)]. *)
  marshalPatches : list PatchOperation → result bytes;
  (** The error of [json.Marshal(review)], if any. *)
  marshalReviewErr : AdmissionReview → option error;
  (** The order in which [range] visits a map during this request. *)
  rangeMap : labelmap → list (string * string);
  (** The label source; the webhook's is [getLabelsFromAPI]. *)
  labelSource : result labelmap
}.

(** [range] visits every entry of a map once, in an order of its own. *)
Definition range_ok (E : Env) : Prop :=
  ∀ m : labelmap, rangeMap E m ≡ₚ map_to_list m.

(** [json.Marshal] does not fail on a review. *)
Definition marshal_ok (E : Env) : Prop :=
  ∀ rv : AdmissionReview, marshalReviewErr E rv = None.

(** ** [getLabelsFromAPI] *)

Definition getLabelsFromAPI : result labelmap :=
  Ok {[ "team" := "microservices" ]}.

(** ** The handler *)

Definition markerPrefix : string := "rollouts-pod-template-hash".
Definition labelsPath : string := "/metadata/labels".

(** The loop of [mutate] that looks for the marker label, over the entries
    in the order [range] yields them; it stops at the first hit. *)
Fixpoint found (entries : list (string * string)) : bool :=
  match entries with
  | [] => false
  | (key, _) :: rest =>
      if strings.HasPrefix key markerPrefix then true else found rest
  end.

(** [_, exists := pod.Labels[key]] under the test [pod.Labels != nil]. *)
Definition exists_in (podLabels : option labelmap) (key : string) : bool :=
  match podLabels with
  | None => false
  | Some m => bool_decide (is_Some (m !! key))
  end.

(** The operation appended for one entry of the label source. *)
Definition patchFor (podLabels : option labelmap) (kv : string * string)
  : PatchOperation :=
  {| op := if exists_in podLabels kv.1 then "replace" else "add";
     path := labelsPath +:+ "/" +:+ escapeJSONPointer kv.1;
     value := StringValue kv.2 |}.

(** The operation appended when [pod.Labels == nil]. *)
Definition createLabels : PatchOperation :=
  {| op := "add"; path := labelsPath; value := MapValue ∅ |}.

(** The construction of [patches] in [mutate]: [entries] are the entries of
    the label source in the order [range] yields them. *)
Definition buildPatch (podLabels : option labelmap)
    (entries : list (string * string)) : list PatchOperation :=
  let patches := [] in
  let patches :=
    match podLabels with
    | None => patches ++ [createLabels]
    | Some _ => patches
    end in
  foldl (λ patches kv, patches ++ [patchFor podLabels kv]) patches entries.

(** [&admissionv1.AdmissionResponse{Allowed: true}]. *)
Definition allow : AdmissionResponse :=
  {| resp_UID := ""; Allowed := true; Result := None; Patch := [];
     PatchType := None |}.

(** [&admissionv1.AdmissionResponse{Allowed: false, Result: ...}]. *)
Definition deny (message : string) : AdmissionResponse :=
  {| resp_UID := ""; Allowed := false;
     Result := Some {| Message := message |}; Patch := [];
     PatchType := None |}.

Definition patched (patchBytes : bytes) : AdmissionResponse :=
  {| resp_UID := ""; Allowed := true; Result := None; Patch := patchBytes;
     PatchType := Some PatchTypeJSONPatch |}.

Definition reviewTypeMeta : TypeMeta :=
  {| APIVersion := "admission.k8s.io/v1"; tm_Kind := "AdmissionReview" |}.

(** [response.UID = uid]. *)
Definition withUID (uid : string) (r : AdmissionResponse) : AdmissionResponse :=
  {| resp_UID := uid; Allowed := Allowed r; Result := Result r;
     Patch := Patch r; PatchType := PatchType r |}.

(** The review that wraps a response. *)
Definition reviewOf (r : AdmissionResponse) : AdmissionReview :=
  {| review_TypeMeta := reviewTypeMeta; Request := None; Response := Some r |}.

Section Handler.

Variable E : Env.

Definition rangeLabels (m : option labelmap) : list (string * string) :=
  match m with
  | None => []
  | Some m => rangeMap E m
  end.

Definition mutate (ar : AdmissionReview) : outcome AdmissionResponse :=
  match Request ar with
  | None => Panic nilDereference
  | Some req =>
      if decide (Kind (req_Kind req) ≠ "Pod") then Return allow
      else
        match unmarshalPod E (Raw (req_Object req)) with
        | (_, Some err) =>
            Return (deny ("Could not unmarshal Pod: " +:+ err))
        | (pod, None) =>
            if negb (found (rangeLabels (Labels pod))) then Return allow
            else
              match labelSource E with
              | Err err =>
                  Return (deny ("Error retrieving labels from API: " +:+ err))
              | Ok labels =>
                  let patches :=
                    buildPatch (Labels pod) (rangeMap E labels) in
                  match marshalPatches E patches with
                  | Err err =>
                      Return (deny ("Could not marshal JSON patch: " +:+ err))
                  | Ok patchBytes => Return (patched patchBytes)
                  end
              end
        end
  end.

Definition writeAdmissionError (w : ResponseWriter) (code : Z)
    (message : string) : ResponseWriter :=
  let w := WriteHeader code w in
  let reviewResp := reviewOf (deny message) in
  let respBytes :=
    match marshalReviewErr E reviewResp with
    | None => [reviewResp]
    | Some _ => []
    end in
  let w := HeaderSet "Content-Type" "application/json" w in
  Write respBytes w.

(** [serveMutate]: [body] and [readErr] are what [io.ReadAll(r.Body)]
    returned. *)
Definition serveMutate (w : ResponseWriter) (body : bytes)
    (readErr : option error) : outcome ResponseWriter :=
  if bool_decide (is_Some readErr) || bool_decide (length body = 0%nat)
  then Return (writeAdmissionError w StatusBadRequest "Empty request body")
  else
    match unmarshalReview E body with
    | (_, Some _) =>
        Return (writeAdmissionError w StatusBadRequest
                  "Could not unmarshal AdmissionReview")
    | (reviewReq, None) =>
        match mutate reviewReq with
        | Panic msg => Panic msg
        | Return response =>
            match Request reviewReq with
            | None => Panic nilDereference
            | Some req =>
                let response := withUID (req_UID req) response in
                let reviewResp := reviewOf response in
                match marshalReviewErr E reviewResp with
                | Some _ =>
                    Return (writeAdmissionError w StatusInternalServerError
                              "Could not marshal AdmissionReview response")
                | None =>
                    let w := HeaderSet "Content-Type" "application/json" w in
                    Return (Write [reviewResp] w)
                end
            end
        end
    end.

End Handler.

(** ** Applying a JSON Patch to the labels of a Pod

    The webhook only builds the patch; the API server applies it.  What
    follows is RFC 6902 (operations [add] and [replace]) and RFC 6901
    (pointers) restricted to the [metadata.labels] member of a Pod
    document, which is either absent ([None]) or a string map. *)

Module JSONPatch.

(** The reference tokens of the text after the leading [/] of a pointer:
    the pieces between slashes. *)
Fixpoint tokens (s : string) : list string :=
  match s with
  | EmptyString => [EmptyString]
  | String c s' =>
      if decide (c = "/"%char) then EmptyString :: tokens s'
      else
        match tokens s' with
        | [] => [String c EmptyString]
        | t :: ts => String c t :: ts
        end
  end.

(** A JSON Pointer is empty or a sequence of [/token]; each token is
    decoded. *)
Definition parsePointer (p : string) : option (list string) :=
  match p with
  | EmptyString => Some []
  | String c p' =>
      if decide (c = "/"%char) then Some (unescapeJSONPointer <$> tokens p')
      else None
  end.

(** An operation on one label. *)
Definition setLabel (o : string) (k v : string) (labels : option labelmap)
  : option (option labelmap) :=
  match labels with
  | None => None
  | Some m =>
      if decide (o = "add") then Some (Some (<[k := v]> m))
      else if decide (o = "replace") then
        if bool_decide (is_Some (m !! k)) then Some (Some (<[k := v]> m))
        else None
      else None
  end.

(** An operation on the labels member as a whole. *)
Definition setLabels (o : string) (new : labelmap) (labels : option labelmap)
  : option (option labelmap) :=
  if decide (o = "add") then Some (Some new)
  else if decide (o = "replace") then
    match labels with
    | None => None
    | Some _ => Some (Some new)
    end
  else None.

(** One operation.  [add] needs the parent of its target and creates or
    overwrites the target; [replace] needs the target itself.  Anything
    that is not the labels member or one of its keys, or that would put a
    value of the wrong shape there, is an error ([None]). *)
Definition applyOp (o : PatchOperation) (labels : option labelmap)
  : option (option labelmap) :=
  match parsePointer (path o) with
  | Some [a; b] =>
      if decide (a = "metadata" ∧ b = "labels") then
        match value o with
        | MapValue new => setLabels (op o) new labels
        | StringValue _ => None
        end
      else None
  | Some [a; b; k] =>
      if decide (a = "metadata" ∧ b = "labels") then
        match value o with
        | StringValue v => setLabel (op o) k v labels
        | MapValue _ => None
        end
      else None
  | _ => None
  end.

(** The operations in order; the first error aborts. *)
Fixpoint applyPatch (ops : list PatchOperation) (labels : option labelmap)
  : option (option labelmap) :=
  match ops with
  | [] => Some labels
  | o :: ops' =>
      match applyOp o labels with
      | None => None
      | Some labels' => applyPatch ops' labels'
      end
  end.

End JSONPatch.

(** The labels wanted after the patch: [existing] merged with [desired],
    [desired] winning; an absent [existing] counts as empty. *)
Definition merged (existing : option labelmap) (desired : labelmap) : labelmap :=
  desired ∪ default ∅ existing.

(** The operation that opens the patch, if any. *)
Definition leading (podLabels : option labelmap) : list PatchOperation :=
  match podLabels with
  | None => [createLabels]
  | Some _ => []
  end.

Definition putEntry (m : labelmap) (kv : string * string) : labelmap :=
  <[kv.1 := kv.2]> m.

(** The path of the operation for a key. *)
Definition labelPath (key : string) : string :=
  labelsPath +:+ "/" +:+ escapeJSONPointer key.

(** ** What a run leaves behind *)

Definition jsonHeader : gmap string string :=
  {[ "Content-Type" := "application/json" ]}.

(** The writer after [serveMutate] has written the response [r] on a fresh
    writer: status 200, the content type sent, one document. *)
Definition okWritten (r : AdmissionResponse) : ResponseWriter :=
  {| rw_header := jsonHeader; rw_status := Some StatusOK;
     rw_sent := jsonHeader; rw_body := [reviewOf r] |}.

(** The writer after [writeAdmissionError] on a fresh writer: the status
    line went out before the content type was set. *)
Definition errorWritten (code : Z) (message : string) : ResponseWriter :=
  {| rw_header := jsonHeader; rw_status := Some code;
     rw_sent := ∅; rw_body := [reviewOf (deny message)] |}.

(** The content type [net/http] detects for a body when the handler set
    none before the status line ([http.DetectContentType] on the first
    bytes written): nothing is detected for an empty body, and the
    encoding of a review, which opens with a brace and is text, is detected
    as plain text. *)
Definition sniffedContentType (body : list AdmissionReview) : option string :=
  match body with
  | [] => None
  | _ :: _ => Some "text/plain; charset=utf-8"
  end.

(** The [Content-Type] of the response on the wire: the one of the
    snapshot, or else the detected one. *)
Definition wireContentType (w : ResponseWriter) : option string :=
  match rw_sent w !! "Content-Type" with
  | Some t => Some t
  | None => sniffedContentType (rw_body w)
  end.

(** The invariant of an admission decision: a denial carries no patch, and
    a patch comes with [Allowed] and the JSON Patch type. *)
Definition decision_ok (r : AdmissionResponse) : Prop :=
  (Allowed r = false → Patch r = [] ∧ PatchType r = None)
  ∧ (Patch r ≠ [] → Allowed r = true ∧ PatchType r = Some PatchTypeJSONPatch).

(** ** A sample environment

    Concrete request bodies and what [encoding/json] answers on them, for
    the examples below.  The decoders are tables over these bodies; every
    other body is refused as a syntax error.  The encoder of the patch list
    writes the members in the order of their keys, as [json.Marshal] does
    for a map, and quotes strings without escaping. *)

Module Sample.

Definition dq : string := String (ascii_of_nat 34) EmptyString.

Definition jstr (s : string) : string := dq +:+ s +:+ dq.

Definition toBytes (s : string) : bytes := String.list_byte_of_string s.

(** The Pod of the scenario: one label, with the marker prefix. *)
Definition podJSON : string :=
  "{" +:+ jstr "metadata" +:+ ":{" +:+ jstr "labels" +:+ ":{" +:+
  jstr "rollouts-pod-template-hash-foo" +:+ ":" +:+ jstr "x" +:+ "}}}".

(** A Pod without the marker. *)
Definition plainPodJSON : string :=
  "{" +:+ jstr "metadata" +:+ ":{" +:+ jstr "labels" +:+ ":{" +:+
  jstr "app" +:+ ":" +:+ jstr "web" +:+ "}}}".

(** A Pod whose labels are not an object. *)
Definition badPodJSON : string :=
  "{" +:+ jstr "metadata" +:+ ":{" +:+ jstr "labels" +:+ ":7}}".

Definition reviewJSON (uid pod : string) : string :=
  "{" +:+ jstr "request" +:+ ":{" +:+ jstr "uid" +:+ ":" +:+ jstr uid +:+ "," +:+
  jstr "kind" +:+ ":{" +:+ jstr "kind" +:+ ":" +:+ jstr "Pod" +:+ "}," +:+
  jstr "object" +:+ ":" +:+ pod +:+ "}}".

(** A review of the scenario's Pod. *)
Definition podReview : bytes := toBytes (reviewJSON "u-1" podJSON).
Definition plainPodReview : bytes := toBytes (reviewJSON "u-2" plainPodJSON).
Definition badPodReview : bytes := toBytes (reviewJSON "u-3" badPodJSON).

(** A review document without a request member. *)
Definition emptyObject : bytes := toBytes "{}".

(** A document whose request has a uid and a kind of the wrong type. *)
Definition badKind : bytes :=
  toBytes ("{" +:+ jstr "request" +:+ ":{" +:+ jstr "uid" +:+ ":" +:+ jstr "abc" +:+
           "," +:+ jstr "kind" +:+ ":7}}").

(** Not a JSON document. *)
Definition notJSON : bytes := toBytes "not json".

Definition zeroTypeMeta : TypeMeta := {| APIVersion := ""; tm_Kind := "" |}.

Definition zeroKind : GroupVersionKind :=
  {| Group := ""; Version := ""; Kind := "" |}.

Definition zeroReview : AdmissionReview :=
  {| review_TypeMeta := zeroTypeMeta; Request := None; Response := None |}.

Definition requestOf (uid : string) (kind : GroupVersionKind) (raw : bytes)
  : AdmissionReview :=
  {| review_TypeMeta := zeroTypeMeta;
     Request := Some {| req_UID := uid; req_Kind := kind;
                        req_Object := {| Raw := raw |} |};
     Response := None |}.

Definition podKind : GroupVersionKind :=
  {| Group := ""; Version := ""; Kind := "Pod" |}.

(** [json.Unmarshal] into a review.  On [badKind] the decoder reports the
    type error and still fills what it could read: the uid. *)
Definition decodeReview (b : bytes) : AdmissionReview * option error :=
  if decide (b = podReview) then
    (requestOf "u-1" podKind (toBytes podJSON), None)
  else if decide (b = plainPodReview) then
    (requestOf "u-2" podKind (toBytes plainPodJSON), None)
  else if decide (b = badPodReview) then
    (requestOf "u-3" podKind (toBytes badPodJSON), None)
  else if decide (b = emptyObject) then (zeroReview, None)
  else if decide (b = badKind) then
    (requestOf "abc" zeroKind [],
     Some "json: cannot unmarshal number into Go struct field AdmissionRequest.request.kind of type v1.GroupVersionKind")
  else (zeroReview, Some "invalid character in document").

(** [json.Unmarshal] into a Pod. *)
Definition decodePod (b : bytes) : Pod * option error :=
  if decide (b = toBytes podJSON) then
    ({| Labels := Some {[ "rollouts-pod-template-hash-foo" := "x" ]} |}, None)
  else if decide (b = toBytes plainPodJSON) then
    ({| Labels := Some {[ "app" := "web" ]} |}, None)
  else if decide (b = toBytes badPodJSON) then
    ({| Labels := None |},
     Some "json: cannot unmarshal number into Go struct field ObjectMeta.metadata.labels of type map[string]string")
  else ({| Labels := None |}, Some "unexpected end of JSON input").

Definition encodeValue (v : PatchValue) : string :=
  match v with
  | StringValue s => jstr s
  | MapValue m =>
      "{" +:+
      foldr (λ kv acc, jstr kv.1 +:+ ":" +:+ jstr kv.2 +:+
                       (if decide (acc = "") then "" else ",") +:+ acc)
            "" (map_to_list m) +:+ "}"
  end.

Definition encodeOp (o : PatchOperation) : string :=
  "{" +:+ jstr "op" +:+ ":" +:+ jstr (op o) +:+ "," +:+
  jstr "path" +:+ ":" +:+ jstr (path o) +:+ "," +:+
  jstr "value" +:+ ":" +:+ encodeValue (value o) +:+ "}".

Fixpoint encodeOps (ops : list PatchOperation) : string :=
  match ops with
  | [] => ""
  | [o] => encodeOp o
  | o :: ops' => encodeOp o +:+ "," +:+ encodeOps ops'
  end.

(** [json.Marshal(patches)]; a nil slice is encoded as [null]. *)
Definition encodePatches (ops : list PatchOperation) : result bytes :=
  match ops with
  | [] => Ok (toBytes "null")
  | _ => Ok (toBytes ("[" +:+ encodeOps ops +:+ "]"))
  end.

(** The webhook as it is deployed: the mock label source. *)
Definition env : Env :=
  {| unmarshalReview := decodeReview;
     unmarshalPod := decodePod;
     marshalPatches := encodePatches;
     marshalReviewErr := λ _, None;
     rangeMap := map_to_list;
     labelSource := getLabelsFromAPI |}.

(** The same with a label source that fails. *)
Definition envSourceDown : Env :=
  {| unmarshalReview := decodeReview;
     unmarshalPod := decodePod;
     marshalPatches := encodePatches;
     marshalReviewErr := λ _, None;
     rangeMap := map_to_list;
     labelSource := Err "connection refused" |}.

(** Two labels to apply, and the two orders [range] may visit them in. *)
Definition twoLabels : labelmap := {[ "env" := "prod"; "team" := "core" ]}.

Definition order1 : list (string * string) :=
  [("env", "prod"); ("team", "core")].

Definition order2 : list (string * string) :=
  [("team", "core"); ("env", "prod")].

(** The patch the scenario expects. *)
Definition expectedPatch : bytes :=
  toBytes ("[{" +:+ jstr "op" +:+ ":" +:+ jstr "add" +:+ "," +:+
           jstr "path" +:+ ":" +:+ jstr "/metadata/labels/team" +:+ "," +:+
           jstr "value" +:+ ":" +:+ jstr "microservices" +:+ "}]").

End Sample.

(** ** Reference tokens and the bytes that are escaped *)

(** A reference token as RFC 6901 writes it: no [/], and every [~] is
    followed by [0] or [1]. *)
Fixpoint validToken (s : string) : bool :=
  match s with
  | EmptyString => true
  | String c s' =>
      if decide (c = "/"%char) then false
      else if decide (c = "~"%char) then
        match s' with
        | EmptyString => false
        | String d _ =>
            bool_decide (d = "0"%char ∨ d = "1"%char) && validToken s'
        end
      else validToken s'
  end.

(** The number of bytes of [s] that are [~] or [/]. *)
Fixpoint countSpecial (s : string) : nat :=
  match s with
  | EmptyString => 0%nat
  | String c s' =>
      if decide (c = "~"%char ∨ c = "/"%char) then S (countSpecial s')
      else countSpecial s'
  end.

(** ** [main] *)

(** What [main] does that can be seen from outside, in order. *)
Inductive Event : Type :=
  | HandleFunc (pattern : string)
  | LogPrintf (line : string)
  | ListenAndServeTLS (addr certFile keyFile : string)
  | LogFatal (line : string).

Global Instance Event_eq_dec : EqDecision Event.
Proof. solve_decision. Defined.

(** What [main] gets from its host: the two bootstrap calls of client-go,
    the process environment, and what [http.ListenAndServeTLS] does with
    an address and a key pair: it keeps serving and never comes back
    ([None]), or it comes back with an error. *)
Record Host (Config Clientset : Type) := {
  InClusterConfig : result Config;
  NewForConfig : Config → result Clientset;
  Getenv : string → string;
  serveError : string → string → string → option error
}.
Arguments InClusterConfig {Config Clientset} _.
Arguments NewForConfig {Config Clientset} _ _.
Arguments Getenv {Config Clientset} _ _.
Arguments serveError {Config Clientset} _ _ _ _.

(** [main]: [log.Fatalf] and [log.Fatal] end the process, so the trace
    stops there; it also stops at [ListenAndServeTLS] when the server keeps
    serving, and [log.Fatal] is then never reached.  The clientset is
    handed to [serveMutate], which never reads it. *)
Definition main {Config Clientset : Type} (H : Host Config Clientset)
  : list Event :=
  match InClusterConfig H with
  | Err err => [LogFatal ("Error creating in-cluster config: " +:+ err)]
  | Ok config =>
      match NewForConfig H config with
      | Err err => [LogFatal ("Error creating clientset: " +:+ err)]
      | Ok clientset =>
          let port := Getenv H "PORT" in
          let port := if decide (port = "") then "8443" else port in
          [ HandleFunc "/mutate";
            LogPrintf ("Starting webhook server on port " +:+ port);
            ListenAndServeTLS (":" +:+ port) "/tls/tls.crt" "/tls/tls.key" ]
          ++ match serveError H (":" +:+ port) "/tls/tls.crt" "/tls/tls.key" with
             | None => []
             | Some err => [LogFatal err]
             end
      end
  end.

(** Sample hosts: inside a cluster with [PORT] unset and the certificate
    missing, inside a cluster and serving, and outside a cluster. *)
Module SampleHost.

Definition inCluster : Host unit unit :=
  {| InClusterConfig := Ok tt;
     NewForConfig := λ _, Ok tt;
     Getenv := λ _, "";
     serveError :=
       λ _ _ _, Some "open /tls/tls.crt: no such file or directory" |}.

Definition serving : Host unit unit :=
  {| InClusterConfig := Ok tt;
     NewForConfig := λ _, Ok tt;
     Getenv := λ _, "9443";
     serveError := λ _ _ _, None |}.

Definition outside : Host unit unit :=
  {| InClusterConfig :=
       Err "unable to load in-cluster configuration, KUBERNETES_SERVICE_HOST and KUBERNETES_SERVICE_PORT must be defined";
     NewForConfig := λ _, Ok tt;
     Getenv := λ _, "9443";
     serveError := λ _ _ _, None |}.

End SampleHost.

(** ** Examples *)

Example escape_sample : escapeJSONPointer "a/b~c" = "a~1b~0c".
Proof. reflexivity. Qed.

Example unescape_sample : unescapeJSONPointer "a~1b~0c" = "a/b~c".
Proof. reflexivity. Qed.

Example replace_no_overlap : strings.ReplaceAll "aaa" "aa" "b" = "ba".
Proof. reflexivity. Qed.

(** The two passes in the other order would escape the [~] of a [~1] just
    produced. *)
Example slash_first_escapes_twice :
  strings.ReplaceAll (strings.ReplaceAll "a/b" "/" "~1") "~" "~0" = "a~01b".
Proof. reflexivity. Qed.

Example scenario_patch :
  mutate Sample.env (Sample.decodeReview Sample.podReview).1
  = Return (patched Sample.expectedPatch).
Proof. vm_compute. reflexivity. Qed.

Example scenario_response :
  serveMutate Sample.env newResponseWriter Sample.podReview None
  = Return {| rw_header := {[ "Content-Type" := "application/json" ]};
              rw_status := Some StatusOK;
              rw_sent := {[ "Content-Type" := "application/json" ]};
              rw_body := [reviewOf (withUID "u-1" (patched Sample.expectedPatch))] |}.
Proof. vm_compute. reflexivity. Qed.

Example scenario_no_labels :
  ∀ E : Env, found (rangeLabels E None) = false.
Proof. reflexivity. Qed.

Example apply_sample_absent :
  JSONPatch.applyPatch
    (buildPatch None [("team", "microservices"); ("a/b~c", "v")]) None
  = Some (Some (merged None {[ "team" := "microservices"; "a/b~c" := "v" ]})).
Proof. vm_compute. reflexivity. Qed.

Example error_header_not_sent :
  rw_sent (writeAdmissionError Sample.env newResponseWriter StatusBadRequest "x")
  = ∅.
Proof. vm_compute. reflexivity. Qed.

(** ** Facts about the string functions *)

Lemma string_app_assoc (a b c : string) : (a +:+ b) +:+ c = a +:+ (b +:+ c).
Proof. induction a as [|x a IH]; simpl; congruence. Qed.

Lemma string_app_nil_r (a : string) : a +:+ EmptyString = a.
Proof. induction a as [|x a IH]; simpl; congruence. Qed.

Lemma substBytes_app f (a b : string) :
  substBytes f (a +:+ b) = substBytes f a +:+ substBytes f b.
Proof.
  induction a as [|x a IH]; simpl; [done |].
  by rewrite IH, string_app_assoc.
Qed.

Lemma HasPrefix_spec (s p : string) :
  strings.HasPrefix s p = true ↔ ∃ t, s = p +:+ t.
Proof.
  revert s. induction p as [|c p IH]; intros s; simpl.
  - split; [intros _; by exists s | done].
  - destruct s as [|x s].
    + split; [done | intros [t Ht]; discriminate].
    + destruct (decide (x = c)) as [->|Hne].
      * rewrite IH. split; intros [t Ht]; exists t; congruence.
      * split; [done | intros [t Ht]; congruence].
Qed.

(** Replacing a single byte is a byte-wise substitution. *)
Lemma ReplaceAll_byte (c : ascii) (new s : string) :
  strings.ReplaceAll s (String c EmptyString) new
  = substBytes (λ x, if decide (x = c) then new else String x EmptyString) s.
Proof.
  unfold strings.ReplaceAll.
  induction s as [|x s IH]; simpl; [done |].
  destruct (decide (x = c)); simpl; by rewrite IH.
Qed.

Lemma escapeJSONPointer_bytes (s : string) :
  escapeJSONPointer s = escapeBytes s.
Proof.
  unfold escapeJSONPointer, escapeBytes. rewrite !ReplaceAll_byte.
  induction s as [|x s IH]; simpl; [done |].
  rewrite substBytes_app, IH. f_equal.
  unfold escapeByte.
  destruct (decide (x = "~"%char)) as [->|Hx]; [done |].
  simpl. destruct (decide (x = "/"%char)); done.
Qed.

Lemma unescape_pass1 (s : string) :
  strings.ReplaceAll (escapeBytes s) "~1" "/" = substBytes tildeOnly s.
Proof.
  unfold strings.ReplaceAll, escapeBytes.
  induction s as [|x s IH]; simpl; [done |].
  unfold escapeByte at 1. unfold tildeOnly at 1.
  destruct (decide (x = "~"%char)) as [->|Hx]; simpl.
  { by rewrite IH. }
  destruct (decide (x = "/"%char)) as [->|Hy]; simpl.
  { by rewrite IH. }
  rewrite decide_False by done. by rewrite IH.
Qed.

Lemma unescape_pass2 (s : string) :
  strings.ReplaceAll (substBytes tildeOnly s) "~0" "~" = s.
Proof.
  unfold strings.ReplaceAll.
  induction s as [|x s IH]; simpl; [done |].
  unfold tildeOnly at 1.
  destruct (decide (x = "~"%char)) as [->|Hx]; simpl.
  { by rewrite IH. }
  rewrite decide_False by done. by rewrite IH.
Qed.

Lemma unescape_escape (s : string) :
  unescapeJSONPointer (escapeJSONPointer s) = s.
Proof.
  unfold unescapeJSONPointer.
  by rewrite escapeJSONPointer_bytes, unescape_pass1, unescape_pass2.
Qed.

Lemma escapeJSONPointer_inj (a b : string) :
  escapeJSONPointer a = escapeJSONPointer b → a = b.
Proof.
  intros H. rewrite <- (unescape_escape a), <- (unescape_escape b).
  by rewrite H.
Qed.

Lemma hasSlash_app (a b : string) :
  hasSlash (a +:+ b) = hasSlash a || hasSlash b.
Proof.
  induction a as [|x a IH]; simpl; [done |].
  destruct (decide (x = "/"%char)); done.
Qed.

Lemma escapeBytes_no_slash (s : string) : hasSlash (escapeBytes s) = false.
Proof.
  unfold escapeBytes.
  induction s as [|x s IH]; simpl; [done |].
  rewrite hasSlash_app, IH, orb_false_r. unfold escapeByte.
  destruct (decide (x = "~"%char)); [done |].
  destruct (decide (x = "/"%char)); [done |].
  simpl. by rewrite decide_False.
Qed.

(** ** Facts about pointers *)

Lemma tokens_no_slash (t : string) :
  hasSlash t = false → JSONPatch.tokens t = [t].
Proof.
  induction t as [|x t IH]; simpl; [done |].
  destruct (decide (x = "/"%char)); [done |].
  intros H. by rewrite IH.
Qed.

Lemma parsePointer_label (k : string) :
  JSONPatch.parsePointer (labelPath k) = Some ["metadata"; "labels"; k].
Proof.
  unfold labelPath.
  rewrite <- (unescape_escape k) at 2.
  rewrite escapeJSONPointer_bytes.
  pose proof (tokens_no_slash _ (escapeBytes_no_slash k)) as Ht.
  unfold labelsPath. simpl. rewrite Ht. reflexivity.
Qed.

Lemma labelPath_inj (a b : string) : labelPath a = labelPath b → a = b.
Proof.
  intros H. apply (f_equal JSONPatch.parsePointer) in H.
  rewrite !parsePointer_label in H. congruence.
Qed.

Lemma labelPath_not_labels (k : string) : labelPath k ≠ labelsPath.
Proof.
  intros H. apply (f_equal JSONPatch.parsePointer) in H.
  rewrite parsePointer_label in H. discriminate.
Qed.

(** ** Facts about the patch builder *)

Lemma foldl_snoc {A B} (f : A → B) (acc : list B) (l : list A) :
  foldl (λ acc x, acc ++ [f x]) acc l = acc ++ map f l.
Proof.
  revert acc. induction l as [|x l IH]; intros acc; simpl.
  - by rewrite app_nil_r.
  - rewrite IH. by rewrite <- app_assoc.
Qed.

Lemma buildPatch_eq (podLabels : option labelmap)
    (entries : list (string * string)) :
  buildPatch podLabels entries
  = leading podLabels ++ map (patchFor podLabels) entries.
Proof.
  unfold buildPatch. rewrite foldl_snoc. by destruct podLabels.
Qed.

Lemma exists_in_spec (podLabels : option labelmap) (k : string) :
  exists_in podLabels k = true ↔ is_Some (default ∅ podLabels !! k).
Proof.
  destruct podLabels as [m|]; simpl.
  - apply bool_decide_eq_true.
  - rewrite lookup_empty. split; [done | by intros [? ?]].
Qed.

Lemma patchFor_eq (podLabels : option labelmap) (k v : string) :
  patchFor podLabels (k, v)
  = {| op := if decide (is_Some (default ∅ podLabels !! k))
             then "replace" else "add";
       path := labelPath k;
       value := StringValue v |}.
Proof.
  unfold patchFor. simpl. f_equal.
  destruct (exists_in podLabels k) eqn:Hex.
  - apply exists_in_spec in Hex. by rewrite decide_True.
  - rewrite decide_False; [done |].
    intros Hin. apply exists_in_spec in Hin. congruence.
Qed.

Lemma range_entries (desired : labelmap) (entries : list (string * string)) :
  entries ≡ₚ map_to_list desired →
  NoDup entries.*1 ∧ list_to_map entries = desired.
Proof.
  intros Hp. split.
  - rewrite Hp. apply NoDup_fst_map_to_list.
  - transitivity (list_to_map (map_to_list desired) : labelmap).
    + apply list_to_map_proper; [| done].
      rewrite Hp. apply NoDup_fst_map_to_list.
    + apply list_to_map_to_list.
Qed.

Lemma range_elem (desired : labelmap) (entries : list (string * string))
    (k v : string) :
  entries ≡ₚ map_to_list desired →
  (k, v) ∈ entries ↔ desired !! k = Some v.
Proof.
  intros Hp. rewrite Hp. apply elem_of_map_to_list.
Qed.

Lemma filter_path_absent (podLabels : option labelmap)
    (entries : list (string * string)) (k : string) :
  k ∉ entries.*1 →
  filter (λ o, path o = labelPath k) (map (patchFor podLabels) entries) = [].
Proof.
  induction entries as [|[k' v'] entries IH]; intros Hk; simpl; [done |].
  rewrite fmap_cons, not_elem_of_cons in Hk. destruct Hk as [Hne Hk].
  rewrite filter_cons_False; [by apply IH |].
  intros Heq. apply labelPath_inj in Heq. simpl in *. congruence.
Qed.

Lemma filter_path_present (podLabels : option labelmap)
    (entries : list (string * string)) (k v : string) :
  NoDup entries.*1 → (k, v) ∈ entries →
  filter (λ o, path o = labelPath k) (map (patchFor podLabels) entries)
  = [patchFor podLabels (k, v)].
Proof.
  induction entries as [|[k' v'] entries IH]; intros Hnd Hin; simpl.
  { by apply elem_of_nil in Hin. }
  rewrite fmap_cons in Hnd. apply NoDup_cons in Hnd as [Hk' Hnd].
  apply elem_of_cons in Hin as [Heq|Hin].
  - injection Heq as <- <-.
    rewrite filter_cons_True by done.
    by rewrite filter_path_absent.
  - assert (k ≠ k') as Hne.
    { intros ->. apply Hk'. apply list_elem_of_fmap. by exists (k', v). }
    rewrite filter_cons_False; [by apply IH |].
    intros Heq. apply labelPath_inj in Heq. simpl in *. congruence.
Qed.

Lemma filter_path_leading (podLabels : option labelmap) (k : string) :
  filter (λ o, path o = labelPath k) (leading podLabels) = [].
Proof.
  destruct podLabels; simpl; [done |].
  rewrite filter_cons_False; [done |].
  intros Heq. by apply (labelPath_not_labels k).
Qed.

Lemma filter_labels_entries (podLabels : option labelmap)
    (entries : list (string * string)) :
  filter (λ o, path o = labelsPath) (map (patchFor podLabels) entries) = [].
Proof.
  induction entries as [|kv entries IH]; simpl; [done |].
  rewrite filter_cons_False; [done |].
  apply labelPath_not_labels.
Qed.

(** ** Facts about patch application *)

Lemma applyPatch_app (ops1 ops2 : list PatchOperation)
    (labels : option labelmap) :
  JSONPatch.applyPatch (ops1 ++ ops2) labels
  = match JSONPatch.applyPatch ops1 labels with
    | None => None
    | Some labels' => JSONPatch.applyPatch ops2 labels'
    end.
Proof.
  revert labels. induction ops1 as [|o ops1 IH]; intros labels; simpl; [done |].
  destruct (JSONPatch.applyOp o labels); [apply IH | done].
Qed.

Lemma applyOp_createLabels (labels : option labelmap) :
  JSONPatch.applyOp createLabels labels = Some (Some ∅).
Proof. reflexivity. Qed.

Lemma applyOp_patchFor (podLabels : option labelmap) (kv : string * string)
    (m : labelmap) :
  (exists_in podLabels kv.1 = true → is_Some (m !! kv.1)) →
  JSONPatch.applyOp (patchFor podLabels kv) (Some m)
  = Some (Some (putEntry m kv)).
Proof.
  intros Hin. unfold JSONPatch.applyOp.
  change (path (patchFor podLabels kv)) with (labelPath kv.1).
  rewrite parsePointer_label.
  rewrite decide_True by done.
  change (value (patchFor podLabels kv)) with (StringValue kv.2).
  change (op (patchFor podLabels kv))
    with (if exists_in podLabels kv.1 then "replace" else "add").
  unfold JSONPatch.setLabel, putEntry.
  destruct (exists_in podLabels kv.1).
  - rewrite decide_False by done. rewrite decide_True by done.
    by rewrite bool_decide_eq_true_2 by auto.
  - by rewrite decide_True by done.
Qed.

Lemma applyPatch_entries (podLabels : option labelmap)
    (entries : list (string * string)) (m : labelmap) :
  (∀ k, exists_in podLabels k = true → is_Some (m !! k)) →
  JSONPatch.applyPatch (map (patchFor podLabels) entries) (Some m)
  = Some (Some (foldl putEntry m entries)).
Proof.
  revert m. induction entries as [|kv entries IH]; intros m Hin; simpl; [done |].
  rewrite applyOp_patchFor by auto.
  apply IH. intros k Hk. unfold putEntry.
  destruct (decide (kv.1 = k)) as [->|Hne].
  - rewrite lookup_insert_eq. eauto.
  - rewrite lookup_insert_ne by done. auto.
Qed.

Lemma foldl_putEntry (entries : list (string * string)) (m : labelmap) :
  NoDup entries.*1 →
  foldl putEntry m entries = list_to_map entries ∪ m.
Proof.
  revert m. induction entries as [|[k v] entries IH]; intros m Hnd; simpl.
  - by rewrite (left_id_L ∅ (∪)).
  - apply NoDup_cons in Hnd as [Hk Hnd].
    rewrite IH by done. unfold putEntry; simpl.
    rewrite <- insert_union_r by (by apply not_elem_of_list_to_map_1).
    by rewrite insert_union_l.
Qed.

Lemma merged_lookup (existing : option labelmap) (desired : labelmap)
    (k : string) :
  merged existing desired !! k
  = match desired !! k with
    | Some v => Some v
    | None => default ∅ existing !! k
    end.
Proof.
  unfold merged. rewrite lookup_union.
  destruct (desired !! k) as [v|]; simpl.
  - by destruct (default ∅ existing !! k).
  - by destruct (default ∅ existing !! k).
Qed.

Lemma applyPatch_build (existing : option labelmap) (desired : labelmap)
    (entries : list (string * string)) (start : option labelmap) :
  entries ≡ₚ map_to_list desired →
  (existing = None ∨
   ∃ m, start = Some m ∧ ∀ k, exists_in existing k = true → is_Some (m !! k)) →
  JSONPatch.applyPatch (buildPatch existing entries) start
  = Some (Some (desired ∪ (if existing is None then ∅ else default ∅ start))).
Proof.
  intros Hp Hstart. destruct (range_entries _ _ Hp) as [Hnd Hmap].
  rewrite buildPatch_eq, applyPatch_app.
  destruct existing as [ex|]; simpl.
  - destruct Hstart as [?|(m & -> & Hm)]; [done |].
    rewrite applyPatch_entries by done.
    by rewrite foldl_putEntry, Hmap.
  - rewrite applyPatch_entries by done.
    by rewrite foldl_putEntry, Hmap.
Qed.

(** ** The patch builder: claims *)

(** C8.  [escapeJSONPointer] replaces every [~] by [~0] and then every [/]
    by [~1]; the result is the string escaped byte by byte, so no [~0] or
    [~1] it produced is escaped again; the key [a/b~c] gives [a~1b~0c];
    and decoding in the reverse order gives back the key, for every
    string. *)
Theorem escapeJSONPointer_round_trip :
  (∀ s, escapeJSONPointer s
        = strings.ReplaceAll (strings.ReplaceAll s "~" "~0") "/" "~1")
  ∧ (∀ s, escapeJSONPointer s = escapeBytes s)
  ∧ escapeJSONPointer "a/b~c" = "a~1b~0c"
  ∧ (∀ s, unescapeJSONPointer s
          = strings.ReplaceAll (strings.ReplaceAll s "~1" "/") "~0" "~")
  ∧ (∀ s, unescapeJSONPointer (escapeJSONPointer s) = s).
Proof.
  split; [done |].
  split; [apply escapeJSONPointer_bytes |].
  split; [done |].
  split; [done |].
  apply unescape_escape.
Qed.

(** C3.  For every existing label mapping (present, empty or absent) and
    every desired label set, whatever the order in which its entries are
    visited: applying the built patch in order to the original labels
    gives the existing labels merged with the desired ones, the desired
    value winning on a key both have; applying the same patch to the
    result gives the same result. *)
Theorem patch_yields_merge (existing : option labelmap) (desired : labelmap)
    (entries : list (string * string)) :
  entries ≡ₚ map_to_list desired →
  JSONPatch.applyPatch (buildPatch existing entries) existing
  = Some (Some (merged existing desired))
  ∧ JSONPatch.applyPatch (buildPatch existing entries)
      (Some (merged existing desired))
    = Some (Some (merged existing desired))
  ∧ (∀ k, merged existing desired !! k
          = match desired !! k with
            | Some v => Some v
            | None => default ∅ existing !! k
            end).
Proof.
  intros Hp. split; [| split]; [| | apply merged_lookup].
  - rewrite (applyPatch_build existing desired entries existing Hp).
    + unfold merged. by destruct existing.
    + destruct existing as [m|]; [right | by left].
      exists m. split; [done |]. intros k Hk. by apply exists_in_spec in Hk.
  - rewrite (applyPatch_build existing desired entries _ Hp).
    + unfold merged. destruct existing as [m|]; simpl; [| done].
      by rewrite (assoc_L (∪)), (idemp_L (∪)).
    + destruct existing as [m|]; [right | by left].
      exists (merged (Some m) desired). split; [done |].
      intros k Hk. apply exists_in_spec in Hk. simpl in Hk.
      rewrite merged_lookup. simpl.
      destruct (desired !! k); [eauto | done].
Qed.

(** The patch for [{team: old, app: web}] and the desired [{team:
    microservices}], applied. *)
Lemma patch_yields_merge_witness :
  let existing : option labelmap := Some {[ "team" := "old"; "app" := "web" ]} in
  let desired : labelmap := {[ "team" := "microservices" ]} in
  JSONPatch.applyPatch (buildPatch existing (map_to_list desired)) existing
  = Some (Some {[ "team" := "microservices"; "app" := "web" ]}).
Proof.
  intros existing desired.
  destruct (patch_yields_merge existing desired (map_to_list desired))
    as (H & _ & _); [reflexivity |].
  rewrite H. vm_compute. reflexivity.
Defined.

(** C6.  The built patch begins with the operation [add /metadata/labels {}]
    if and only if the label mapping of the Pod is absent; it then holds
    exactly one operation on that path, and none when the mapping is
    present, even empty. *)
Theorem leading_operation (existing : option labelmap)
    (entries : list (string * string)) :
  (existing = None
   ↔ head (buildPatch existing entries)
     = Some {| op := "add"; path := "/metadata/labels"; value := MapValue ∅ |})
  ∧ length (filter (λ o, path o = "/metadata/labels")
              (buildPatch existing entries))
    = match existing with None => 1%nat | Some _ => 0%nat end.
Proof.
  rewrite buildPatch_eq. split.
  - destruct existing as [m|]; simpl; [| done].
    split; [done |].
    destruct entries as [|kv entries]; simpl; [done |].
    intros Heq. injection Heq as _ Hpath _. discriminate Hpath.
  - rewrite filter_app.
    change "/metadata/labels" with labelsPath.
    rewrite filter_labels_entries, app_nil_r.
    by destruct existing.
Qed.

(** C7.  For each pair of the desired label set the patch holds exactly one
    operation on the path of its key: [replace] when the key is in the
    original existing mapping and [add] otherwise, at [/metadata/labels/]
    followed by the key escaped byte by byte ([~] as [~0], [/] as [~1]),
    with the desired value; and every operation of the patch is that of a
    desired pair, the leading one apart. *)
Theorem one_operation_per_label (existing : option labelmap)
    (desired : labelmap) (entries : list (string * string)) :
  entries ≡ₚ map_to_list desired →
  (∀ k v, desired !! k = Some v →
     filter (λ o, path o = "/metadata/labels/" +:+ escapeBytes k)
       (buildPatch existing entries)
     = [ {| op := if decide (is_Some (default ∅ existing !! k))
                  then "replace" else "add";
            path := "/metadata/labels/" +:+ escapeBytes k;
            value := StringValue v |} ])
  ∧ (∀ o, o ∈ buildPatch existing entries →
       (existing = None ∧ o = createLabels)
       ∨ ∃ k v, desired !! k = Some v
                ∧ o = {| op := if decide (is_Some (default ∅ existing !! k))
                               then "replace" else "add";
                         path := "/metadata/labels/" +:+ escapeBytes k;
                         value := StringValue v |}).
Proof.
  intros Hp. destruct (range_entries _ _ Hp) as [Hnd _].
  rewrite buildPatch_eq. split.
  - intros k v Hkv. rewrite <- (escapeJSONPointer_bytes k).
    change ("/metadata/labels/" +:+ escapeJSONPointer k) with (labelPath k).
    rewrite filter_app, filter_path_leading. simpl.
    rewrite (filter_path_present existing entries k v Hnd)
      by (by apply (range_elem desired)).
    by rewrite patchFor_eq.
  - intros o Hin. apply elem_of_app in Hin as [Hin|Hin].
    + left. destruct existing; simpl in Hin.
      * by apply elem_of_nil in Hin.
      * by apply list_elem_of_singleton in Hin.
    + right. apply list_elem_of_fmap in Hin as ([k v] & -> & Hin).
      exists k, v. split; [by apply (range_elem desired entries) |].
      rewrite <- (escapeJSONPointer_bytes k).
      by rewrite patchFor_eq.
Qed.

(** The one operation on the key [a/b~c] when the Pod already has that
    label: its path ends in [a~1b~0c]. *)
Lemma one_operation_per_label_witness :
  filter (λ o, path o = "/metadata/labels/" +:+ escapeBytes "a/b~c")
    (buildPatch (Some {[ "a/b~c" := "old" ]})
       (map_to_list ({[ "a/b~c" := "new" ]} : labelmap)))
  = [ {| op := "replace"; path := "/metadata/labels/a~1b~0c";
         value := StringValue "new" |} ].
Proof.
  destruct (one_operation_per_label (Some {[ "a/b~c" := "old" ]})
              {[ "a/b~c" := "new" ]}
              (map_to_list ({[ "a/b~c" := "new" ]} : labelmap)))
    as [H _]; [reflexivity |].
  rewrite (H "a/b~c" "new"); [| reflexivity].
  vm_compute. reflexivity.
Defined.

(** Both orders enumerate [Sample.twoLabels]. *)
Lemma sample_orders :
  Sample.order1 ≡ₚ map_to_list Sample.twoLabels
  ∧ Sample.order2 ≡ₚ map_to_list Sample.twoLabels.
Proof.
  assert (map_to_list Sample.twoLabels = Sample.order1
          ∨ map_to_list Sample.twoLabels = Sample.order2) as Hl.
  { vm_compute. auto. }
  split.
  - destruct Hl as [-> | ->]; [done | apply perm_swap].
  - destruct Hl as [-> | ->]; [apply perm_swap | done].
Qed.




(** ** Facts about the handler *)

Lemma found_spec (entries : list (string * string)) :
  found entries = true
  ↔ ∃ k v, (k, v) ∈ entries ∧ strings.HasPrefix k markerPrefix = true.
Proof.
  induction entries as [|[k v] entries IH]; cbn [found].
  - split; [done | intros (k & v & Hin & _); by apply elem_of_nil in Hin].
  - destruct (strings.HasPrefix k markerPrefix) eqn:Hk.
    + split; [intros _ | done]. exists k, v.
      split; [apply elem_of_cons; by left | done].
    + rewrite IH. split.
      * intros (k' & v' & Hin & Hp). exists k', v'.
        split; [apply elem_of_cons; by right | done].
      * intros (k' & v' & Hin & Hp). exists k', v'. split; [| done].
        apply elem_of_cons in Hin as [[= -> ->]|Hin]; [congruence | done].
Qed.

Lemma rangeLabels_elem (E : Env) (labels : option labelmap) (k v : string) :
  range_ok E →
  (k, v) ∈ rangeLabels E labels ↔ default ∅ labels !! k = Some v.
Proof.
  intros Hr. destruct labels as [m|]; simpl.
  - rewrite (Hr m). apply elem_of_map_to_list.
  - rewrite lookup_empty. split; [intros Hin; by apply elem_of_nil in Hin | done].
Qed.

Lemma writeAdmissionError_fresh (E : Env) (code : Z) (message : string) :
  marshal_ok E →
  writeAdmissionError E newResponseWriter code message
  = errorWritten code message.
Proof.
  intros Hm. unfold writeAdmissionError. by rewrite Hm.
Qed.

Lemma serveMutate_empty (E : Env) (w : ResponseWriter) (body : bytes)
    (readErr : option error) :
  is_Some readErr ∨ body = [] →
  serveMutate E w body readErr
  = Return (writeAdmissionError E w StatusBadRequest "Empty request body").
Proof.
  intros H. unfold serveMutate.
  destruct H as [H| ->].
  - by rewrite bool_decide_eq_true_2.
  - by rewrite orb_true_r.
Qed.

Lemma serveMutate_nonempty (E : Env) (w : ResponseWriter) (body : bytes) :
  body ≠ [] →
  bool_decide (is_Some (@None string)) || bool_decide (length body = 0%nat)
  = false.
Proof.
  intros H. rewrite bool_decide_eq_false_2 by (by intros [? ?]).
  rewrite bool_decide_eq_false_2; [done |].
  by destruct body.
Qed.

Lemma serveMutate_undecodable (E : Env) (w : ResponseWriter) (body : bytes)
    (rv : AdmissionReview) (e : string) :
  body ≠ [] → unmarshalReview E body = (rv, Some e) →
  serveMutate E w body None
  = Return (writeAdmissionError E w StatusBadRequest
              "Could not unmarshal AdmissionReview").
Proof.
  intros Hb Hd. unfold serveMutate.
  rewrite (serveMutate_nonempty E w body Hb). by rewrite Hd.
Qed.

Lemma serveMutate_decoded (E : Env) (body : bytes) (ar : AdmissionReview)
    (req : AdmissionRequest) (resp : AdmissionResponse) :
  marshal_ok E → body ≠ [] → unmarshalReview E body = (ar, None) →
  Request ar = Some req → mutate E ar = Return resp →
  serveMutate E newResponseWriter body None
  = Return (okWritten (withUID (req_UID req) resp)).
Proof.
  intros Hm Hb Hd Hreq Hmut. unfold serveMutate.
  rewrite (serveMutate_nonempty E newResponseWriter body Hb).
  by rewrite Hd, Hmut, Hreq, Hm.
Qed.

Lemma mutate_cases (E : Env) (ar : AdmissionReview) (req : AdmissionRequest) :
  Request ar = Some req →
  mutate E ar = Return allow
  ∨ (∃ msg, mutate E ar = Return (deny msg))
  ∨ (∃ b, mutate E ar = Return (patched b)).
Proof.
  intros Hreq. unfold mutate. rewrite Hreq.
  destruct (decide (Kind (req_Kind req) ≠ "Pod")); [by left |].
  destruct (unmarshalPod E (Raw (req_Object req))) as [pod [e|]];
    [right; left; eauto |].
  destruct (found (rangeLabels E (Labels pod))); simpl; [| by left].
  destruct (labelSource E) as [labels|e]; [| right; left; eauto].
  destruct (marshalPatches E _) as [b|e]; [right; right; eauto | right; left; eauto].
Qed.

Lemma decision_ok_allow : decision_ok allow.
Proof. split; [discriminate | done]. Qed.

Lemma decision_ok_deny (msg : string) : decision_ok (deny msg).
Proof. split; [done | done]. Qed.

Lemma decision_ok_patched (b : bytes) : decision_ok (patched b).
Proof. split; [discriminate | done]. Qed.

Lemma decision_ok_withUID (uid : string) (r : AdmissionResponse) :
  decision_ok r → decision_ok (withUID uid r).
Proof. by intros H. Qed.

Lemma mutate_decision_ok (E : Env) (ar : AdmissionReview)
    (resp : AdmissionResponse) :
  mutate E ar = Return resp → decision_ok resp.
Proof.
  intros Hmut. destruct (Request ar) as [req|] eqn:Hreq.
  - destruct (mutate_cases E ar req Hreq) as [H|[[msg H]|[b H]]];
      rewrite H in Hmut; injection Hmut as <-.
    + apply decision_ok_allow.
    + apply decision_ok_deny.
    + apply decision_ok_patched.
  - unfold mutate in Hmut. by rewrite Hreq in Hmut.
Qed.

(** X9.  For a Pod that carries the marker, the patch [mutate] attaches is
    the encoding of operations that, applied to the labels of the Pod, give
    them merged with the labels of the source, the source winning. *)
Lemma mutate_patch_merges (E : Env) (ar : AdmissionReview)
    (req : AdmissionRequest) (pod : Pod) (labels : labelmap) (b : bytes) :
  range_ok E →
  Request ar = Some req → Kind (req_Kind req) = "Pod" →
  unmarshalPod E (Raw (req_Object req)) = (pod, None) →
  found (rangeLabels E (Labels pod)) = true →
  labelSource E = Ok labels →
  mutate E ar = Return (patched b) →
  ∃ ops, marshalPatches E ops = Ok b
         ∧ JSONPatch.applyPatch ops (Labels pod)
           = Some (Some (merged (Labels pod) labels)).
Proof.
  intros Hr Hreq Hkind Hpod Hf Hsrc Hmut. unfold mutate in Hmut.
  rewrite Hreq, Hkind in Hmut.
  rewrite decide_False in Hmut by (intros H; by apply H).
  rewrite Hpod, Hf, Hsrc in Hmut. simpl in Hmut.
  destruct (marshalPatches E _) as [b'|e] eqn:Hb; [| done].
  injection Hmut as ->.
  eexists. split; [exact Hb |].
  rewrite (applyPatch_build (Labels pod) labels _ (Labels pod) (Hr labels)).
  - unfold merged. by destruct (Labels pod).
  - destruct (Labels pod) as [m|]; [right | by left].
    exists m. split; [done |]. intros k Hk. by apply exists_in_spec in Hk.
Qed.

(** ** The handler: claims *)

(** C4.  The admission predicate is true exactly when some key of the
    label mapping of the Pod begins with [rollouts-pod-template-hash]; it
    is false, without error, on an absent and on an empty mapping; and a
    Pod it rejects is allowed without a patch, whatever the label source
    holds. *)
Theorem admission_predicate (E : Env) :
  range_ok E →
  (∀ labels : option labelmap,
     found (rangeLabels E labels) = true
     ↔ ∃ k v suffix, default ∅ labels !! k = Some v
                     ∧ k = "rollouts-pod-template-hash" +:+ suffix)
  ∧ found (rangeLabels E None) = false
  ∧ found (rangeLabels E (Some ∅)) = false
  ∧ (∀ ar req pod,
       Request ar = Some req → Kind (req_Kind req) = "Pod" →
       unmarshalPod E (Raw (req_Object req)) = (pod, None) →
       found (rangeLabels E (Labels pod)) = false →
       mutate E ar
       = Return {| resp_UID := ""; Allowed := true; Result := None;
                   Patch := []; PatchType := None |}).
Proof.
  intros Hr.
  assert (∀ labels : option labelmap,
     found (rangeLabels E labels) = true
     ↔ ∃ k v suffix, default ∅ labels !! k = Some v
                     ∧ k = markerPrefix +:+ suffix) as Hiff.
  { intros labels. rewrite found_spec. split.
    - intros (k & v & Hin & Hp). apply HasPrefix_spec in Hp as [t Ht].
      exists k, v, t. split; [by apply (rangeLabels_elem E) | done].
    - intros (k & v & t & Hin & Hp). exists k, v.
      split; [by apply (rangeLabels_elem E) |].
      apply HasPrefix_spec. by exists t. }
  split; [exact Hiff |]. split; [done |]. split.
  - destruct (found (rangeLabels E (Some ∅))) eqn:Hf; [| done].
    apply Hiff in Hf as (k & v & t & Hin & _). simpl in Hin.
    by rewrite lookup_empty in Hin.
  - intros ar req pod Hreq Hkind Hpod Hf. unfold mutate.
    rewrite Hreq, Hkind.
    rewrite decide_False by (intros H; by apply H).
    by rewrite Hpod, Hf.
Qed.

(** A Pod with the only label [app: web] is allowed without a patch. *)
Lemma admission_predicate_witness :
  range_ok Sample.env
  ∧ mutate Sample.env (Sample.decodeReview Sample.plainPodReview).1
    = Return allow.
Proof.
  assert (range_ok Sample.env) as Hr by (intros m; reflexivity).
  split; [exact Hr |].
  destruct (admission_predicate Sample.env Hr) as (_ & _ & _ & H).
  eapply H; vm_compute; reflexivity.
Defined.

(** C9.  Every decision of [mutate], and every response [serveMutate]
    writes, satisfies the invariant: a denial carries no patch, and a patch
    comes with [Allowed] true and the JSON Patch type.  [mutate] does
    return a decision when the review carries a request. *)
Theorem decision_invariant (E : Env) :
  (∀ ar resp, mutate E ar = Return resp →
     (Allowed resp = false → Patch resp = [] ∧ PatchType resp = None)
     ∧ (Patch resp ≠ [] →
        Allowed resp = true ∧ PatchType resp = Some PatchTypeJSONPatch))
  ∧ (∀ ar, is_Some (Request ar) → ∃ resp, mutate E ar = Return resp)
  ∧ (∀ body readErr w rv resp,
       serveMutate E newResponseWriter body readErr = Return w →
       rv ∈ rw_body w → Response rv = Some resp → decision_ok resp).
Proof.
  split; [| split].
  - intros ar resp Hmut. by apply (mutate_decision_ok E ar).
  - intros ar [req Hreq].
    destruct (mutate_cases E ar req Hreq) as [H|[[msg H]|[b H]]]; eauto.
  - assert (∀ code msg rv resp,
              rv ∈ rw_body (writeAdmissionError E newResponseWriter code msg) →
              Response rv = Some resp → decision_ok resp) as Herr.
    { intros code msg rv resp Hin Hresp. unfold writeAdmissionError in Hin.
      destruct (marshalReviewErr E _); simpl in Hin.
      - by apply elem_of_nil in Hin.
      - apply list_elem_of_singleton in Hin as ->.
        injection Hresp as <-. apply decision_ok_deny. }
    intros body readErr w rv resp Hrun Hin Hresp. unfold serveMutate in Hrun.
    destruct (bool_decide (is_Some readErr) || bool_decide (length body = 0%nat)).
    { injection Hrun as <-. by eapply Herr. }
    destruct (unmarshalReview E body) as [ar [e|]].
    { injection Hrun as <-. by eapply Herr. }
    destruct (mutate E ar) as [r|msg] eqn:Hmut; [| done].
    destruct (Request ar) as [req|]; [| done].
    destruct (marshalReviewErr E _).
    { injection Hrun as <-. by eapply Herr. }
    injection Hrun as <-. simpl in Hin.
    apply list_elem_of_singleton in Hin as ->.
    injection Hresp as <-.
    apply decision_ok_withUID. by apply (mutate_decision_ok E ar).
Qed.

(** The decision on the Pod of the scenario carries a patch, is allowed and
    names the JSON Patch type. *)
Lemma decision_invariant_witness :
  mutate Sample.env (Sample.decodeReview Sample.podReview).1
  = Return (patched Sample.expectedPatch)
  ∧ Allowed (patched Sample.expectedPatch) = true
  ∧ PatchType (patched Sample.expectedPatch) = Some PatchTypeJSONPatch.
Proof.
  assert (mutate Sample.env (Sample.decodeReview Sample.podReview).1
          = Return (patched Sample.expectedPatch)) as Hmut
    by (vm_compute; reflexivity).
  split; [exact Hmut |].
  destruct (decision_invariant Sample.env) as (H & _ & _).
  apply (H _ _ Hmut). vm_compute. discriminate.
Defined.

(** C10.  A non-empty body that does not decode as a review is answered
    with status 400 and the denial [Could not unmarshal AdmissionReview],
    without a patch; a Pod object that does not decode, and a label source
    that fails, are answered with a denial whose message ends with the text
    of the error; on each of these paths [serveMutate] returns. *)
Theorem errors_become_denials (E : Env) :
  marshal_ok E →
  (∀ body rv e,
     body ≠ [] → unmarshalReview E body = (rv, Some e) →
     serveMutate E newResponseWriter body None
     = Return {| rw_header := jsonHeader;
                 rw_status := Some 400;
                 rw_sent := ∅;
                 rw_body :=
                   [ {| review_TypeMeta := reviewTypeMeta;
                        Request := None;
                        Response :=
                          Some {| resp_UID := "";
                                  Allowed := false;
                                  Result := Some {| Message := "Could not unmarshal AdmissionReview" |};
                                  Patch := [];
                                  PatchType := None |} |} ] |})
  ∧ (∀ body ar req pod e,
       body ≠ [] → unmarshalReview E body = (ar, None) →
       Request ar = Some req → Kind (req_Kind req) = "Pod" →
       unmarshalPod E (Raw (req_Object req)) = (pod, Some e) →
       mutate E ar = Return (deny ("Could not unmarshal Pod: " +:+ e))
       ∧ serveMutate E newResponseWriter body None
         = Return (okWritten (withUID (req_UID req)
                                (deny ("Could not unmarshal Pod: " +:+ e)))))
  ∧ (∀ body ar req pod e,
       body ≠ [] → unmarshalReview E body = (ar, None) →
       Request ar = Some req → Kind (req_Kind req) = "Pod" →
       unmarshalPod E (Raw (req_Object req)) = (pod, None) →
       found (rangeLabels E (Labels pod)) = true →
       labelSource E = Err e →
       mutate E ar
       = Return (deny ("Error retrieving labels from API: " +:+ e))
       ∧ serveMutate E newResponseWriter body None
         = Return (okWritten (withUID (req_UID req)
                     (deny ("Error retrieving labels from API: " +:+ e)))))
  ∧ (∀ uid message,
       Allowed (withUID uid (deny message)) = false
       ∧ Result (withUID uid (deny message)) = Some {| Message := message |}
       ∧ Patch (withUID uid (deny message)) = []
       ∧ PatchType (withUID uid (deny message)) = None).
Proof.
  intros Hm. split; [| split; [| split]].
  - intros body rv e Hb Hd.
    rewrite (serveMutate_undecodable E _ body rv e Hb Hd).
    by rewrite writeAdmissionError_fresh.
  - intros body ar req pod e Hb Hd Hreq Hkind Hpod.
    assert (mutate E ar = Return (deny ("Could not unmarshal Pod: " +:+ e)))
      as Hmut.
    { unfold mutate. rewrite Hreq, Hkind.
      rewrite decide_False by (intros H; by apply H).
      by rewrite Hpod. }
    split; [exact Hmut |].
    by apply (serveMutate_decoded E body ar).
  - intros body ar req pod e Hb Hd Hreq Hkind Hpod Hf Hsrc.
    assert (mutate E ar
            = Return (deny ("Error retrieving labels from API: " +:+ e)))
      as Hmut.
    { unfold mutate. rewrite Hreq, Hkind.
      rewrite decide_False by (intros H; by apply H).
      by rewrite Hpod, Hf, Hsrc. }
    split; [exact Hmut |].
    by apply (serveMutate_decoded E body ar).
  - done.
Qed.

(** The sample encoder of reviews never fails. *)
Lemma sample_marshal_ok : marshal_ok Sample.env ∧ marshal_ok Sample.envSourceDown.
Proof. split; intros rv; reflexivity. Qed.

(** The three denials on the sample bodies. *)
Lemma errors_become_denials_witness :
  serveMutate Sample.env newResponseWriter Sample.notJSON None
  = Return (errorWritten 400 "Could not unmarshal AdmissionReview")
  ∧ serveMutate Sample.env newResponseWriter Sample.badPodReview None
    = Return (okWritten (withUID "u-3"
        (deny "Could not unmarshal Pod: json: cannot unmarshal number into Go struct field ObjectMeta.metadata.labels of type map[string]string")))
  ∧ serveMutate Sample.envSourceDown newResponseWriter Sample.podReview None
    = Return (okWritten (withUID "u-1"
        (deny "Error retrieving labels from API: connection refused"))).
Proof.
  destruct sample_marshal_ok as [Hm1 Hm2].
  destruct (errors_become_denials Sample.env Hm1) as (H1 & H2 & _ & _).
  destruct (errors_become_denials Sample.envSourceDown Hm2) as (_ & _ & H3 & _).
  split; [| split].
  - apply (H1 Sample.notJSON Sample.zeroReview "invalid character in document").
    + vm_compute. discriminate.
    + vm_compute. reflexivity.
  - destruct (H2 Sample.badPodReview
                (Sample.requestOf "u-3" Sample.podKind
                   (Sample.toBytes Sample.badPodJSON))
                {| req_UID := "u-3"; req_Kind := Sample.podKind;
                   req_Object := {| Raw := Sample.toBytes Sample.badPodJSON |} |}
                {| Labels := None |}
                "json: cannot unmarshal number into Go struct field ObjectMeta.metadata.labels of type map[string]string")
      as [_ Hrun].
    + vm_compute. discriminate.
    + vm_compute. reflexivity.
    + reflexivity.
    + reflexivity.
    + vm_compute. reflexivity.
    + exact Hrun.
  - destruct (H3 Sample.podReview
                (Sample.requestOf "u-1" Sample.podKind
                   (Sample.toBytes Sample.podJSON))
                {| req_UID := "u-1"; req_Kind := Sample.podKind;
                   req_Object := {| Raw := Sample.toBytes Sample.podJSON |} |}
                {| Labels := Some {[ "rollouts-pod-template-hash-foo" := "x" ]} |}
                "connection refused")
      as [_ Hrun].
    + vm_compute. discriminate.
    + vm_compute. reflexivity.
    + reflexivity.
    + reflexivity.
    + vm_compute. reflexivity.
    + vm_compute. reflexivity.
    + reflexivity.
    + exact Hrun.
Defined.

(** C2, at the failing input.  A non-empty body that decodes without
    error into a review whose request is nil, as the document [{}] does,
    makes [serveMutate] panic on the nil pointer in [mutate]: nothing is
    written. *)
Theorem request_missing_panics (E : Env) (body : bytes) (ar : AdmissionReview) :
  body ≠ [] → unmarshalReview E body = (ar, None) → Request ar = None →
  mutate E ar = Panic nilDereference
  ∧ ∀ w, serveMutate E w body None = Panic nilDereference.
Proof.
  intros Hb Hd Hreq.
  assert (mutate E ar = Panic nilDereference) as Hmut.
  { unfold mutate. by rewrite Hreq. }
  split; [exact Hmut |].
  intros w. unfold serveMutate.
  rewrite (serveMutate_nonempty E w body Hb). by rewrite Hd, Hmut.
Qed.

(** The body [{}]. *)
Lemma request_missing_panics_witness :
  serveMutate Sample.env newResponseWriter Sample.emptyObject None
  = Panic nilDereference.
Proof.
  eapply (request_missing_panics Sample.env Sample.emptyObject);
    vm_compute; first [discriminate | reflexivity].
Defined.

(** C1, as stated, fails.  The document [Sample.badKind] is malformed (its
    [kind] is a number) and its uid [abc] is recovered by the decoder, yet
    the response that is written carries the empty UID. *)
Lemma uid_lost_on_decode_error :
  ∃ req w rv resp,
    Request (unmarshalReview Sample.env Sample.badKind).1 = Some req
    ∧ req_UID req = "abc"
    ∧ serveMutate Sample.env newResponseWriter Sample.badKind None = Return w
    ∧ rw_body w = [rv]
    ∧ Response rv = Some resp
    ∧ resp_UID resp = ""
    ∧ resp_UID resp ≠ req_UID req.
Proof.
  eexists _, _, _, _.
  split; [vm_compute; reflexivity |].
  split; [reflexivity |].
  split; [vm_compute; reflexivity |].
  split; [reflexivity |].
  split; [reflexivity |].
  split; [reflexivity |].
  discriminate.
Qed.

(** C1, amended.  When the body decodes without error into a review that
    carries a request (and the response encodes), [serveMutate] writes one
    review with status 200 whose response UID is the UID of the request.
    When the body is empty, unreadable or does not decode, it writes the
    denial of [writeAdmissionError], whose UID is empty. *)
Theorem response_uid_echoed (E : Env) :
  marshal_ok E →
  (∀ body ar req,
     body ≠ [] → unmarshalReview E body = (ar, None) →
     Request ar = Some req →
     ∃ resp,
       serveMutate E newResponseWriter body None = Return (okWritten resp)
       ∧ resp_UID resp = req_UID req)
  ∧ (∀ body readErr,
       is_Some readErr ∨ body = []
       ∨ is_Some (unmarshalReview E body).2 →
       ∃ code message,
         serveMutate E newResponseWriter body readErr
         = Return (errorWritten code message)
         ∧ resp_UID (deny message) = "").
Proof.
  intros Hm. split.
  - intros body ar req Hb Hd Hreq.
    destruct (mutate_cases E ar req Hreq) as [H|[[msg H]|[b H]]];
      eexists; (split; [by apply (serveMutate_decoded E body ar) | done]).
  - intros body readErr Hbad.
    destruct (decide (is_Some readErr ∨ body = [])) as [Hempty|Hne].
    + exists StatusBadRequest, "Empty request body".
      rewrite serveMutate_empty by done.
      by rewrite writeAdmissionError_fresh.
    + destruct Hbad as [H|[H|[e He]]]; [by destruct Hne; left | by destruct Hne; right |].
      destruct readErr as [r|]; [destruct Hne; left; eauto |].
      destruct (unmarshalReview E body) as [rv o] eqn:Hd. simpl in He. subst o.
      exists StatusBadRequest, "Could not unmarshal AdmissionReview".
      rewrite (serveMutate_undecodable E _ body rv e); [| tauto | done].
      by rewrite writeAdmissionError_fresh.
Qed.

(** The review [u-1] of the scenario is answered with the UID [u-1]. *)
Lemma response_uid_echoed_witness :
  ∃ resp,
    serveMutate Sample.env newResponseWriter Sample.podReview None
    = Return (okWritten resp)
    ∧ resp_UID resp = "u-1".
Proof.
  destruct sample_marshal_ok as [Hm _].
  destruct (response_uid_echoed Sample.env Hm) as [H _].
  apply (H Sample.podReview
           (Sample.requestOf "u-1" Sample.podKind
              (Sample.toBytes Sample.podJSON))
           {| req_UID := "u-1"; req_Kind := Sample.podKind;
              req_Object := {| Raw := Sample.toBytes Sample.podJSON |} |}).
  - vm_compute. discriminate.
  - vm_compute. reflexivity.
  - reflexivity.
Defined.

(** ** More about [escapeJSONPointer] *)

Lemma escapeBytes_cons (c : ascii) (s : string) :
  escapeBytes (String c s) = escapeByte c +:+ escapeBytes s.
Proof. reflexivity. Qed.

Lemma escapeByte_cases (c : ascii) :
  (c = "~"%char ∧ escapeByte c = "~0")
  ∨ (c = "/"%char ∧ escapeByte c = "~1")
  ∨ (c ≠ "~"%char ∧ c ≠ "/"%char ∧ escapeByte c = String c EmptyString).
Proof.
  unfold escapeByte.
  destruct (decide (c = "~"%char)) as [->|H1]; [by left |].
  destruct (decide (c = "/"%char)) as [->|H2]; [by right; left |].
  by right; right.
Qed.

(** X1.  The escaped key is a well-formed reference token: it holds no [/],
    and every [~] in it is followed by [0] or [1]; so the pointer of a
    label always splits into the three tokens [metadata], [labels] and
    the key. *)
Theorem escaped_key_is_token (s : string) :
  validToken (escapeJSONPointer s) = true
  ∧ hasSlash (escapeJSONPointer s) = false
  ∧ JSONPatch.parsePointer ("/metadata/labels/" +:+ escapeJSONPointer s)
    = Some ["metadata"; "labels"; s].
Proof.
  split; [| split].
  - rewrite escapeJSONPointer_bytes.
    induction s as [|c s IH]; [done |].
    rewrite escapeBytes_cons.
    destruct (escapeByte_cases c) as [[-> ->]|[[-> ->]|(H1 & H2 & ->)]].
    + simpl. exact IH.
    + simpl. exact IH.
    + simpl. rewrite decide_False by done. by rewrite decide_False by done.
  - rewrite escapeJSONPointer_bytes. apply escapeBytes_no_slash.
  - apply (parsePointer_label s).
Qed.

(** X2.  Escaping goes byte by byte: the escape of a concatenation is the
    concatenation of the escapes, and the empty key stays empty. *)
Theorem escape_concatenation (a b : string) :
  escapeJSONPointer (a +:+ b) = escapeJSONPointer a +:+ escapeJSONPointer b
  ∧ escapeJSONPointer "" = "".
Proof.
  split; [| done].
  rewrite !escapeJSONPointer_bytes. unfold escapeBytes.
  apply substBytes_app.
Qed.

Lemma string_length_app (a b : string) :
  String.length (a +:+ b) = (String.length a + String.length b)%nat.
Proof. induction a as [|x a IH]; simpl; [done | by rewrite IH]. Qed.

Lemma escapeBytes_length (s : string) :
  String.length (escapeBytes s) = (String.length s + countSpecial s)%nat.
Proof.
  induction s as [|c s IH]; [done |].
  rewrite escapeBytes_cons, string_length_app, IH. simpl.
  destruct (escapeByte_cases c) as [[-> ->]|[[-> ->]|(H1 & H2 & ->)]]; simpl.
  - lia.
  - lia.
  - rewrite decide_False by (by intros [?|?]). lia.
Qed.

(** X3.  Escaping adds one byte for every [~] and every [/] of the key and
    changes nothing else: a key is left as it is exactly when it holds
    neither, and the escaped key is never shorter than the key nor more
    than twice as long. *)
Theorem escape_length (s : string) :
  String.length (escapeJSONPointer s)
  = (String.length s + countSpecial s)%nat
  ∧ (escapeJSONPointer s = s ↔ countSpecial s = 0%nat)
  ∧ (String.length s ≤ String.length (escapeJSONPointer s)
     ≤ 2 * String.length s)%nat.
Proof.
  rewrite escapeJSONPointer_bytes.
  pose proof (escapeBytes_length s) as Hlen.
  assert (countSpecial s ≤ String.length s)%nat as Hle.
  { clear Hlen. induction s as [|c s IH]; simpl; [done |].
    destruct (decide (c = "~"%char ∨ c = "/"%char)); lia. }
  split; [exact Hlen |]. split; [| lia].
  split.
  - intros Heq. rewrite Heq in Hlen. lia.
  - clear Hlen Hle. induction s as [|c s IH]; [done |].
    simpl. destruct (decide (c = "~"%char ∨ c = "/"%char)) as [|Hc]; [done |].
    intros H0. rewrite escapeBytes_cons, (IH H0).
    destruct (escapeByte_cases c) as [[-> _]|[[-> _]|(_ & _ & ->)]].
    + destruct Hc. by left.
    + destruct Hc. by right.
    + done.
Qed.

(** X4.  The operations of two label keys are on the same path exactly when
    the keys are equal, and the path of a label is never the path
    [/metadata/labels] of the leading operation. *)
Theorem label_paths_distinct (existing : option labelmap)
    (kv1 kv2 : string * string) :
  (path (patchFor existing kv1) = path (patchFor existing kv2)
   ↔ kv1.1 = kv2.1)
  ∧ (path (patchFor existing kv1) = path createLabels ↔ False).
Proof.
  split.
  - split.
    + intros H. by apply labelPath_inj in H.
    + intros H. unfold patchFor. simpl. by rewrite H.
  - split; [| done]. intros H. by apply (labelPath_not_labels kv1.1).
Qed.

(** ** More about the patch builder *)

(** X5.  Once the patch has been applied, building the patch again for the
    patched labels gives only [replace] operations, one per desired label
    and with the desired value, and applying it changes nothing. *)
Theorem second_pass_replaces (existing : option labelmap)
    (desired : labelmap) (entries : list (string * string)) :
  entries ≡ₚ map_to_list desired →
  (∀ o, o ∈ buildPatch (Some (merged existing desired)) entries →
     op o = "replace"
     ∧ ∃ k v, desired !! k = Some v
              ∧ path o = "/metadata/labels/" +:+ escapeJSONPointer k
              ∧ value o = StringValue v)
  ∧ length (buildPatch (Some (merged existing desired)) entries)
    = size desired
  ∧ JSONPatch.applyPatch
      (buildPatch (Some (merged existing desired)) entries)
      (Some (merged existing desired))
    = Some (Some (merged existing desired)).
Proof.
  intros Hp. split; [| split].
  - intros o Hin. rewrite buildPatch_eq in Hin. simpl in Hin.
    apply list_elem_of_fmap in Hin as ([k v] & -> & Hin).
    apply (range_elem desired entries k v Hp) in Hin.
    rewrite patchFor_eq. simpl. split.
    + rewrite decide_True; [done |].
      rewrite merged_lookup, Hin. eauto.
    + exists k, v. done.
  - rewrite buildPatch_eq. simpl. rewrite length_map, Hp.
    apply length_map_to_list.
  - rewrite (applyPatch_build _ desired entries _ Hp).
    + simpl. unfold merged. by rewrite (assoc_L (∪)), (idemp_L (∪)).
    + right. eexists. split; [done |].
      intros k Hk. by apply exists_in_spec in Hk.
Qed.

(** The second pass over [{app: web}] patched with [{team: microservices}]. *)
Lemma second_pass_replaces_witness :
  buildPatch (Some (merged (Some {[ "app" := "web" ]})
                      {[ "team" := "microservices" ]}))
    (map_to_list ({[ "team" := "microservices" ]} : labelmap))
  = [ {| op := "replace"; path := "/metadata/labels/team";
         value := StringValue "microservices" |} ]
  ∧ JSONPatch.applyPatch
      (buildPatch (Some (merged (Some {[ "app" := "web" ]})
                           {[ "team" := "microservices" ]}))
         (map_to_list ({[ "team" := "microservices" ]} : labelmap)))
      (Some (merged (Some {[ "app" := "web" ]})
               {[ "team" := "microservices" ]}))
    = Some (Some (merged (Some {[ "app" := "web" ]})
                    {[ "team" := "microservices" ]})).
Proof.
  split; [vm_compute; reflexivity |].
  apply (second_pass_replaces (Some {[ "app" := "web" ]})
           {[ "team" := "microservices" ]}).
  reflexivity.
Defined.

(** X6.  The patch holds one operation per desired label, and one more when
    the labels of the Pod are nil; every operation is an [add] or a
    [replace]; and the patch is not empty when a label is desired. *)
Theorem patch_length (existing : option labelmap) (desired : labelmap)
    (entries : list (string * string)) :
  entries ≡ₚ map_to_list desired →
  length (buildPatch existing entries)
  = (match existing with None => 1 | Some _ => 0 end + size desired)%nat
  ∧ (∀ o, o ∈ buildPatch existing entries → op o = "add" ∨ op o = "replace")
  ∧ (desired ≠ ∅ → buildPatch existing entries ≠ []).
Proof.
  intros Hp.
  assert (length (buildPatch existing entries)
          = (match existing with None => 1 | Some _ => 0 end
             + size desired)%nat) as Hlen.
  { rewrite buildPatch_eq, length_app, length_map, Hp, length_map_to_list.
    by destruct existing. }
  split; [exact Hlen |]. split.
  - intros o Hin. rewrite buildPatch_eq in Hin.
    apply elem_of_app in Hin as [Hin|Hin].
    + destruct existing; simpl in Hin; [by apply elem_of_nil in Hin |].
      apply list_elem_of_singleton in Hin as ->. by left.
    + apply list_elem_of_fmap in Hin as (kv & -> & _).
      unfold patchFor. simpl. destruct (exists_in existing kv.1); auto.
  - intros Hne Hnil. rewrite Hnil in Hlen. simpl in Hlen.
    apply Hne. apply map_size_empty_iff. lia.
Qed.

(** The patch for a Pod without labels and the two sample labels has three
    operations. *)
Lemma patch_length_witness :
  length (buildPatch None Sample.order1) = 3%nat.
Proof.
  destruct sample_orders as [H1 _].
  destruct (patch_length None Sample.twoLabels Sample.order1 H1) as [H _].
  rewrite H. vm_compute. reflexivity.
Defined.

(** X7.  With the label source of the webhook, whatever the order of
    [range]: the patch for a Pod that has labels is the single operation
    that sets [team] to [microservices], a [replace] when the Pod has a
    [team] label and an [add] otherwise; applied, it sets that label and
    leaves every other one. *)
Theorem webhook_patch_is_team (E : Env) (labels m : labelmap) :
  range_ok E → getLabelsFromAPI = Ok labels →
  buildPatch (Some m) (rangeMap E labels)
  = [ {| op := if decide (is_Some (m !! "team")) then "replace" else "add";
         path := "/metadata/labels/team";
         value := StringValue "microservices" |} ]
  ∧ JSONPatch.applyPatch (buildPatch (Some m) (rangeMap E labels)) (Some m)
    = Some (Some (<["team" := "microservices"]> m)).
Proof.
  intros Hr [= <-].
  assert (rangeMap E {[ "team" := "microservices" ]}
          = [("team", "microservices")]) as ->.
  { apply Permutation_singleton_r. rewrite (Hr _).
    by rewrite map_to_list_singleton. }
  rewrite buildPatch_eq. simpl. split.
  - by rewrite patchFor_eq.
  - rewrite applyOp_patchFor; [done |].
    intros Hin. by apply exists_in_spec in Hin.
Qed.

(** The patch for the Pod of the scenario. *)
Lemma webhook_patch_is_team_witness :
  buildPatch (Some {[ "rollouts-pod-template-hash-foo" := "x" ]})
    (rangeMap Sample.env {[ "team" := "microservices" ]})
  = [ {| op := "add"; path := "/metadata/labels/team";
         value := StringValue "microservices" |} ].
Proof.
  destruct (webhook_patch_is_team Sample.env {[ "team" := "microservices" ]}
              {[ "rollouts-pod-template-hash-foo" := "x" ]})
    as [H _]; [intros m; reflexivity | reflexivity |].
  rewrite H. vm_compute. reflexivity.
Defined.

(** ** More about the handler *)

Lemma createLabels_not_entry (podLabels : option labelmap)
    (entries : list (string * string)) :
  createLabels ∉ map (patchFor podLabels) entries.
Proof.
  intros Hin. apply list_elem_of_fmap in Hin as (kv & Heq & _).
  apply (f_equal path) in Heq. symmetry in Heq.
  by apply (labelPath_not_labels kv.1).
Qed.

Lemma mutate_panic (E : Env) (ar : AdmissionReview) (msg : string) :
  mutate E ar = Panic msg → Request ar = None ∧ msg = nilDereference.
Proof.
  intros Hmut. destruct (Request ar) as [req|] eqn:Hreq.
  - destruct (mutate_cases E ar req Hreq) as [H|[[m H]|[b H]]]; congruence.
  - unfold mutate in Hmut. rewrite Hreq in Hmut. by injection Hmut as <-.
Qed.

Lemma writeAdmissionError_fresh_any (E : Env) (code : Z) (message : string) :
  writeAdmissionError E newResponseWriter code message
  = {| rw_header := jsonHeader; rw_status := Some code; rw_sent := ∅;
       rw_body := match marshalReviewErr E (reviewOf (deny message)) with
                  | None => [reviewOf (deny message)]
                  | Some _ => []
                  end |}.
Proof.
  unfold writeAdmissionError.
  by destruct (marshalReviewErr E (reviewOf (deny message))).
Qed.

(** The runs of [serveMutate] on a fresh writer that return. *)
Lemma serveMutate_fresh_cases (E : Env) (body : bytes)
    (readErr : option error) (w' : ResponseWriter) :
  serveMutate E newResponseWriter body readErr = Return w' →
  ((is_Some readErr ∨ body = [] ∨ is_Some (unmarshalReview E body).2)
   ∧ ∃ message,
       w' = writeAdmissionError E newResponseWriter StatusBadRequest message)
  ∨ (readErr = None ∧ body ≠ [] ∧ (unmarshalReview E body).2 = None
     ∧ ∃ req resp,
         Request (unmarshalReview E body).1 = Some req
         ∧ mutate E (unmarshalReview E body).1 = Return resp
         ∧ ((marshalReviewErr E (reviewOf (withUID (req_UID req) resp)) = None
             ∧ w' = okWritten (withUID (req_UID req) resp))
            ∨ (is_Some (marshalReviewErr E
                          (reviewOf (withUID (req_UID req) resp)))
               ∧ w' = writeAdmissionError E newResponseWriter
                        StatusInternalServerError
                        "Could not marshal AdmissionReview response"))).
Proof.
  intros Hrun.
  destruct (decide (is_Some readErr ∨ body = [])) as [Hempty|Hne].
  { left. rewrite serveMutate_empty in Hrun by done. injection Hrun as <-.
    split; [tauto | eauto]. }
  assert (readErr = None) as ->.
  { destruct readErr; [destruct Hne; left; eauto | done]. }
  assert (body ≠ []) as Hb by tauto.
  unfold serveMutate in Hrun.
  rewrite (serveMutate_nonempty E newResponseWriter body Hb) in Hrun.
  destruct (unmarshalReview E body) as [ar [e|]] eqn:Hd; simpl.
  { left. injection Hrun as <-. split; [right; right; eauto | eauto]. }
  right. split; [done |]. split; [done |]. split; [done |].
  destruct (mutate E ar) as [resp|msg] eqn:Hmut; [| done].
  destruct (Request ar) as [req|] eqn:Hreq; [| done].
  exists req, resp. split; [done |]. split; [done |].
  destruct (marshalReviewErr E _) as [e|] eqn:Hm.
  - right. injection Hrun as <-. split; [eauto | done].
  - left. injection Hrun as <-. done.
Qed.

(** X8.  Whenever [mutate] attaches a patch, the labels of the Pod are not
    nil: the patch that is encoded holds no [add /metadata/labels {}]
    operation, only the operations of the entries of the label source. *)
Theorem patch_attached_without_leading (E : Env) (ar : AdmissionReview)
    (resp : AdmissionResponse) :
  mutate E ar = Return resp →
  PatchType resp = Some PatchTypeJSONPatch →
  ∃ req pod m labels,
    Request ar = Some req
    ∧ unmarshalPod E (Raw (req_Object req)) = (pod, None)
    ∧ Labels pod = Some m
    ∧ labelSource E = Ok labels
    ∧ buildPatch (Labels pod) (rangeMap E labels)
      = map (patchFor (Some m)) (rangeMap E labels)
    ∧ (createLabels ∉ buildPatch (Labels pod) (rangeMap E labels))
    ∧ marshalPatches E (buildPatch (Labels pod) (rangeMap E labels))
      = Ok (Patch resp).
Proof.
  intros Hmut Hty. unfold mutate in Hmut.
  destruct (Request ar) as [req|]; [| done].
  destruct (decide (Kind (req_Kind req) ≠ "Pod")).
  { injection Hmut as <-. done. }
  destruct (unmarshalPod E (Raw (req_Object req))) as [pod [e|]] eqn:Hpod.
  { injection Hmut as <-. done. }
  destruct (found (rangeLabels E (Labels pod))) eqn:Hf; simpl in Hmut.
  2: { injection Hmut as <-. done. }
  destruct (labelSource E) as [labels|e] eqn:Hsrc.
  2: { injection Hmut as <-. done. }
  destruct (marshalPatches E _) as [b|e] eqn:Hb.
  2: { injection Hmut as <-. done. }
  injection Hmut as <-.
  destruct (Labels pod) as [m|] eqn:Hl; [| done].
  exists req, pod, m, labels.
  rewrite Hl, buildPatch_eq. simpl.
  repeat split; try done.
  - apply createLabels_not_entry.
  - by rewrite <- Hb, buildPatch_eq.
Qed.

(** The patch for the Pod of the scenario is encoded without the leading
    operation. *)
Lemma patch_attached_without_leading_witness :
  ∃ req pod m labels,
    Request (Sample.decodeReview Sample.podReview).1 = Some req
    ∧ unmarshalPod Sample.env (Raw (req_Object req)) = (pod, None)
    ∧ Labels pod = Some m
    ∧ labelSource Sample.env = Ok labels
    ∧ buildPatch (Labels pod) (rangeMap Sample.env labels)
      = map (patchFor (Some m)) (rangeMap Sample.env labels)
    ∧ (createLabels ∉ buildPatch (Labels pod) (rangeMap Sample.env labels))
    ∧ marshalPatches Sample.env
        (buildPatch (Labels pod) (rangeMap Sample.env labels))
      = Ok (Patch (patched Sample.expectedPatch)).
Proof.
  apply (patch_attached_without_leading Sample.env
           (Sample.decodeReview Sample.podReview).1
           (patched Sample.expectedPatch)).
  - vm_compute. reflexivity.
  - reflexivity.
Defined.

Lemma request_missing_panics_aux (E : Env) (w : ResponseWriter) (body : bytes)
    (ar : AdmissionReview) :
  body ≠ [] → unmarshalReview E body = (ar, None) → Request ar = None →
  serveMutate E w body None = Panic nilDereference.
Proof.
  intros Hb Hd Hreq. unfold serveMutate.
  rewrite (serveMutate_nonempty E w body Hb), Hd.
  unfold mutate. by rewrite Hreq.
Qed.

(** X10.  [serveMutate] panics exactly when nothing went wrong with reading
    and decoding and the decoded review has no request; the panic is the
    nil pointer dereference of [mutate]. *)
Theorem serveMutate_panics_iff (E : Env) (w : ResponseWriter) (body : bytes)
    (readErr : option error) :
  (serveMutate E w body readErr = Panic nilDereference
   ↔ readErr = None ∧ body ≠ []
     ∧ (unmarshalReview E body).2 = None
     ∧ Request (unmarshalReview E body).1 = None)
  ∧ (∀ msg, serveMutate E w body readErr = Panic msg → msg = nilDereference).
Proof.
  assert (∀ msg, serveMutate E w body readErr = Panic msg →
            msg = nilDereference
            ∧ readErr = None ∧ body ≠ []
            ∧ (unmarshalReview E body).2 = None
            ∧ Request (unmarshalReview E body).1 = None) as Hpanic.
  { intros msg Hrun.
    destruct (decide (is_Some readErr ∨ body = [])) as [Hempty|Hne].
    { by rewrite serveMutate_empty in Hrun. }
    assert (readErr = None) as ->.
    { destruct readErr; [destruct Hne; left; eauto | done]. }
    assert (body ≠ []) as Hb by tauto.
    unfold serveMutate in Hrun.
    rewrite (serveMutate_nonempty E w body Hb) in Hrun.
    destruct (unmarshalReview E body) as [ar [e|]]; [done |]. simpl.
    destruct (mutate E ar) as [resp|m] eqn:Hmut.
    - destruct (Request ar) as [req|] eqn:Hreq.
      + by destruct (marshalReviewErr E _).
      + unfold mutate in Hmut. by rewrite Hreq in Hmut.
    - apply mutate_panic in Hmut as [Hreq ->].
      injection Hrun as <-. done. }
  split; [split |].
  - intros Hrun. by apply Hpanic in Hrun as (_ & H).
  - intros (-> & Hb & Hd & Hreq).
    destruct (unmarshalReview E body) as [ar o] eqn:Hdec.
    simpl in Hd, Hreq. subst o.
    by apply (request_missing_panics_aux E w body ar).
  - intros msg Hrun. by apply Hpanic in Hrun as (-> & _).
Qed.

(** X11.  Whenever [serveMutate] returns, it has written the status line
    once, with 200, 400 or 500, and at most one document; every document
    written is a review with the version [admission.k8s.io/v1], the kind
    [AdmissionReview], no request and a response.  When the encoder of
    reviews does not fail, exactly one document is written. *)
Theorem serveMutate_writes_one_review (E : Env) (body : bytes)
    (readErr : option error) (w' : ResponseWriter) :
  serveMutate E newResponseWriter body readErr = Return w' →
  (rw_status w' = Some 200 ∨ rw_status w' = Some 400
   ∨ rw_status w' = Some 500)
  ∧ (length (rw_body w') ≤ 1)%nat
  ∧ (∀ rv, rv ∈ rw_body w' →
       review_TypeMeta rv
       = {| APIVersion := "admission.k8s.io/v1"; tm_Kind := "AdmissionReview" |}
       ∧ Request rv = None
       ∧ is_Some (Response rv))
  ∧ (marshal_ok E → length (rw_body w') = 1%nat).
Proof.
  intros Hrun.
  assert (∀ code message,
            let w := writeAdmissionError E newResponseWriter code message in
            rw_status w = Some code
            ∧ (length (rw_body w) ≤ 1)%nat
            ∧ (∀ rv, rv ∈ rw_body w →
                 review_TypeMeta rv = reviewTypeMeta ∧ Request rv = None
                 ∧ is_Some (Response rv))
            ∧ (marshal_ok E → length (rw_body w) = 1%nat)) as Herr.
  { intros code message. cbv zeta. rewrite writeAdmissionError_fresh_any. simpl.
    split; [done |].
    destruct (marshalReviewErr E (reviewOf (deny message))) eqn:Hm; simpl.
    - split; [lia |]. split.
      + intros rv Hin. by apply elem_of_nil in Hin.
      + intros Hok. by rewrite Hok in Hm.
    - split; [lia |]. split; [| done].
      intros rv Hin. apply list_elem_of_singleton in Hin as ->. simpl. eauto. }
  apply serveMutate_fresh_cases in Hrun
    as [[_ [message ->]]
       |(_ & _ & _ & req & resp & _ & _ & [[_ ->]|[_ ->]])].
  - destruct (Herr StatusBadRequest message) as (H1 & H2 & H3 & H4).
    split; [by right; left |]. done.
  - simpl. split; [by left |]. split; [lia |]. split; [| done].
    intros rv Hin. apply list_elem_of_singleton in Hin as ->. simpl. eauto.
  - destruct (Herr StatusInternalServerError
                "Could not marshal AdmissionReview response")
      as (H1 & H2 & H3 & H4).
    split; [by right; right |]. done.
Qed.

(** The response to the review of the scenario. *)
Lemma serveMutate_writes_one_review_witness :
  ∃ w',
    serveMutate Sample.env newResponseWriter Sample.podReview None = Return w'
    ∧ length (rw_body w') = 1%nat.
Proof.
  eexists. split; [vm_compute; reflexivity |].
  eapply (serveMutate_writes_one_review Sample.env Sample.podReview None).
  - vm_compute. reflexivity.
  - intros rv. reflexivity.
Defined.

(** X12.  The status of the response tells what happened: 400 exactly when
    the body could not be read, was empty or did not decode; 500 exactly
    when the review of the decision could not be encoded; 200 exactly when
    it could. *)
Theorem serveMutate_status (E : Env) (body : bytes)
    (readErr : option error) (w' : ResponseWriter) :
  serveMutate E newResponseWriter body readErr = Return w' →
  (rw_status w' = Some 400
   ↔ is_Some readErr ∨ body = [] ∨ is_Some (unmarshalReview E body).2)
  ∧ (rw_status w' = Some 500
     ↔ ∃ req resp,
         readErr = None ∧ body ≠ [] ∧ (unmarshalReview E body).2 = None
         ∧ Request (unmarshalReview E body).1 = Some req
         ∧ mutate E (unmarshalReview E body).1 = Return resp
         ∧ is_Some (marshalReviewErr E (reviewOf (withUID (req_UID req) resp))))
  ∧ (rw_status w' = Some 200
     ↔ ∃ req resp,
         readErr = None ∧ body ≠ [] ∧ (unmarshalReview E body).2 = None
         ∧ Request (unmarshalReview E body).1 = Some req
         ∧ mutate E (unmarshalReview E body).1 = Return resp
         ∧ marshalReviewErr E (reviewOf (withUID (req_UID req) resp)) = None
         ∧ rw_body w' = [reviewOf (withUID (req_UID req) resp)]).
Proof.
  intros Hrun.
  apply serveMutate_fresh_cases in Hrun
    as [[Hbad [message ->]]
       |(-> & Hb & Hd & req & resp & Hreq & Hmut & [[Hm ->]|[Hm ->]])].
  - rewrite writeAdmissionError_fresh_any. simpl.
    split; [done |]. split.
    + split; [done |].
      intros (rq & rs & -> & Hb & Hd & _).
      destruct Hbad as [[? ?]|[?|[? He]]]; [done | done |]. congruence.
    + split; [done |].
      intros (rq & rs & -> & Hb & Hd & _).
      destruct Hbad as [[? ?]|[?|[? He]]]; [done | done |]. congruence.
  - simpl. split; [| split].
    + split; [done |].
      intros [[? ?]|[?|[? He]]]; [done | done |]. congruence.
    + split; [done |].
      intros (rq & rs & _ & _ & _ & Hrq & Hms & [e He]).
      rewrite Hreq in Hrq. rewrite Hmut in Hms.
      injection Hrq as <-. injection Hms as <-. congruence.
    + split; [intros _ | done]. exists req, resp. done.
  - rewrite writeAdmissionError_fresh_any. simpl. split; [| split].
    + split; [done |].
      intros [[? ?]|[?|[? He]]]; [done | done |]. congruence.
    + split; [intros _ | done]. exists req, resp. done.
    + split; [done |].
      intros (rq & rs & _ & _ & _ & Hrq & Hms & He & _).
      rewrite Hreq in Hrq. rewrite Hmut in Hms.
      injection Hrq as <-. injection Hms as <-.
      destruct Hm as [e Hm]. congruence.
Qed.

(** A body that is not JSON is answered with 400. *)
Lemma serveMutate_status_witness :
  ∃ w',
    serveMutate Sample.env newResponseWriter Sample.notJSON None = Return w'
    ∧ rw_status w' = Some 400.
Proof.
  eexists. split; [vm_compute; reflexivity |].
  eapply (serveMutate_status Sample.env Sample.notJSON None).
  - vm_compute. reflexivity.
  - right. right. vm_compute. eauto.
Defined.

(** X13.  [writeAdmissionError] writes the status line before it sets the
    content type, so the [application/json] it sets stays in the header
    map and is not in the snapshot that goes out.  For [serveMutate]: the
    response goes out as [application/json] exactly when its status is
    200; a 400 or 500 response goes out with the content type the server
    detects, plain text, or with none when nothing was written. *)
Theorem error_content_type_not_sent (E : Env) (body : bytes)
    (readErr : option error) (w' : ResponseWriter) :
  serveMutate E newResponseWriter body readErr = Return w' →
  rw_header w' !! "Content-Type" = Some "application/json"
  ∧ (wireContentType w' = Some "application/json" ↔ rw_status w' = Some 200)
  ∧ wireContentType w'
    = (if decide (rw_status w' = Some 200) then Some "application/json"
       else match rw_body w' with
            | [] => None
            | _ :: _ => Some "text/plain; charset=utf-8"
            end)
  ∧ (marshal_ok E →
     wireContentType w'
     = if decide (rw_status w' = Some 200) then Some "application/json"
       else Some "text/plain; charset=utf-8").
Proof.
  intros Hrun.
  assert (∀ code message,
            code ≠ 200 →
            let w := writeAdmissionError E newResponseWriter code message in
            rw_header w !! "Content-Type" = Some "application/json"
            ∧ rw_status w = Some code
            ∧ wireContentType w = sniffedContentType (rw_body w)
            ∧ (marshal_ok E → rw_body w = [reviewOf (deny message)])) as Herr.
  { intros code message Hcode. cbv zeta. rewrite writeAdmissionError_fresh_any.
    split; [reflexivity |]. split; [reflexivity |]. split; [reflexivity |].
    intros Hok. simpl. by rewrite Hok. }
  apply serveMutate_fresh_cases in Hrun
    as [[_ [message ->]]
       |(_ & _ & _ & req & resp & _ & _ & [[_ ->]|[_ ->]])].
  - destruct (Herr StatusBadRequest message) as (H1 & H2 & H3 & H4); [done |].
    rewrite H2, H3. rewrite decide_False by done.
    split; [exact H1 |]. split; [| split].
    + split; [| done]. by destruct (rw_body _).
    + by destruct (rw_body _).
    + intros Hok. by rewrite (H4 Hok).
  - split; [reflexivity |]. split; [done |]. split; reflexivity.
  - destruct (Herr StatusInternalServerError
                "Could not marshal AdmissionReview response")
      as (H1 & H2 & H3 & H4); [done |].
    rewrite H2, H3. rewrite decide_False by done.
    split; [exact H1 |]. split; [| split].
    + split; [| done]. by destruct (rw_body _).
    + by destruct (rw_body _).
    + intros Hok. by rewrite (H4 Hok).
Qed.

(** The denial of a body that is not JSON goes out as plain text. *)
Lemma error_content_type_not_sent_witness :
  ∃ w',
    serveMutate Sample.env newResponseWriter Sample.notJSON None = Return w'
    ∧ rw_header w' !! "Content-Type" = Some "application/json"
    ∧ wireContentType w' = Some "text/plain; charset=utf-8".
Proof.
  eexists. split; [vm_compute; reflexivity |].
  destruct (error_content_type_not_sent Sample.env Sample.notJSON None
              (errorWritten 400 "Could not unmarshal AdmissionReview"))
    as (H1 & _ & H3 & _); [vm_compute; reflexivity |].
  split; [exact H1 |]. exact H3.
Defined.

(** X14.  [mutate] denies a request only for a Pod, and exactly when the
    Pod does not decode, or it carries the marker and the label source
    fails or the patch does not encode; a denial carries its message and
    nothing else, and an allowed decision is the bare one or the patched
    one. *)
Theorem mutate_denies_iff (E : Env) (ar : AdmissionReview)
    (req : AdmissionRequest) (resp : AdmissionResponse) :
  Request ar = Some req → mutate E ar = Return resp →
  (Allowed resp = false
   ↔ Kind (req_Kind req) = "Pod"
     ∧ (is_Some (unmarshalPod E (Raw (req_Object req))).2
        ∨ ((unmarshalPod E (Raw (req_Object req))).2 = None
           ∧ found (rangeLabels E
                      (Labels (unmarshalPod E (Raw (req_Object req))).1))
             = true
           ∧ ((∃ e, labelSource E = Err e)
              ∨ ∃ labels e,
                  labelSource E = Ok labels
                  ∧ marshalPatches E
                      (buildPatch
                         (Labels (unmarshalPod E (Raw (req_Object req))).1)
                         (rangeMap E labels))
                    = Err e))))
  ∧ (Allowed resp = false → ∃ message, resp = deny message)
  ∧ (Allowed resp = true → resp = allow ∨ ∃ b, resp = patched b).
Proof.
  intros Hreq Hmut. split.
  - unfold mutate in Hmut. rewrite Hreq in Hmut.
    destruct (decide (Kind (req_Kind req) ≠ "Pod")) as [Hk|Hk].
    { injection Hmut as <-. split; [done | by intros [? _]]. }
    apply dec_stable in Hk.
    destruct (unmarshalPod E (Raw (req_Object req))) as [pod [e|]]; simpl.
    { injection Hmut as <-. split; [intros _ | done].
      split; [done |]. left. eauto. }
    destruct (found (rangeLabels E (Labels pod))); simpl in Hmut.
    2: { injection Hmut as <-. split; [done |].
         intros (_ & [[? ?]|(_ & ? & _)]); done. }
    destruct (labelSource E) as [labels|e].
    2: { injection Hmut as <-. split; [intros _ | done].
         split; [done |]. right. split; [done |]. split; [done |].
         left. eauto. }
    destruct (marshalPatches E _) as [b|e] eqn:Hb.
    + injection Hmut as <-. split; [done |].
      intros (_ & [[? ?]|(_ & _ & [[? ?]|(l & e & [= <-] & He)])]);
        [done | done |]. congruence.
    + injection Hmut as <-. split; [intros _ | done].
      split; [done |]. right. split; [done |]. split; [done |].
      right. eauto.
  - destruct (mutate_cases E ar req Hreq) as [H|[[m H]|[b H]]];
      rewrite H in Hmut; injection Hmut as <-.
    + split; [done | intros _; by left].
    + split; [intros _; eauto | done].
    + split; [done | intros _; right; eauto].
Qed.

(** The review of the Pod whose labels are a number is denied. *)
Lemma mutate_denies_iff_witness :
  ∃ message,
    mutate Sample.env (Sample.decodeReview Sample.badPodReview).1
    = Return (deny message).
Proof.
  destruct (mutate_denies_iff Sample.env
              (Sample.decodeReview Sample.badPodReview).1
              {| req_UID := "u-3"; req_Kind := Sample.podKind;
                 req_Object := {| Raw := Sample.toBytes Sample.badPodJSON |} |}
              (deny "Could not unmarshal Pod: json: cannot unmarshal number into Go struct field ObjectMeta.metadata.labels of type map[string]string"))
    as (_ & H & _).
  - vm_compute. reflexivity.
  - vm_compute. reflexivity.
  - destruct (H eq_refl) as [message Hm]. exists message.
    rewrite <- Hm. vm_compute. reflexivity.
Defined.

(** The patch for the review of the scenario merges the labels. *)
Lemma mutate_patch_merges_witness :
  ∃ ops,
    marshalPatches Sample.env ops = Ok Sample.expectedPatch
    ∧ JSONPatch.applyPatch ops
        (Some {[ "rollouts-pod-template-hash-foo" := "x" ]})
      = Some (Some (merged (Some {[ "rollouts-pod-template-hash-foo" := "x" ]})
                      {[ "team" := "microservices" ]})).
Proof.
  apply (mutate_patch_merges Sample.env
           (Sample.decodeReview Sample.podReview).1
           {| req_UID := "u-1"; req_Kind := Sample.podKind;
              req_Object := {| Raw := Sample.toBytes Sample.podJSON |} |}
           {| Labels := Some {[ "rollouts-pod-template-hash-foo" := "x" ]} |}
           {[ "team" := "microservices" ]} Sample.expectedPatch).
  - intros m. reflexivity.
  - vm_compute. reflexivity.
  - reflexivity.
  - vm_compute. reflexivity.
  - vm_compute. reflexivity.
  - reflexivity.
  - vm_compute. reflexivity.
Defined.

(** ** [main]: facts *)

(** X15.  [main] starts the server only when the in-cluster configuration
    and the client were both built: then it registers [/mutate] and
    listens with the key pair of [/tls], on the port of [PORT], or on 8443
    when [PORT] is empty or unset, never on an empty port; a fatal log
    line follows only if the server comes back, and carries its error.
    When either bootstrap call fails, the only thing [main] does is the
    fatal log line that carries the error: nothing is registered and
    nothing listens. *)
Theorem main_serves_only_when_bootstrapped {Config Clientset : Type}
    (H : Host Config Clientset) :
  (∀ addr certFile keyFile,
     ListenAndServeTLS addr certFile keyFile ∈ main H →
     (∃ config clientset,
        InClusterConfig H = Ok config
        ∧ NewForConfig H config = Ok clientset)
     ∧ certFile = "/tls/tls.crt" ∧ keyFile = "/tls/tls.key"
     ∧ ∃ port, addr = ":" +:+ port ∧ port ≠ ""
               ∧ port = (if decide (Getenv H "PORT" = "")
                         then "8443" else Getenv H "PORT"))
  ∧ (∀ config clientset,
       InClusterConfig H = Ok config → NewForConfig H config = Ok clientset →
       ∃ addr line,
         main H
         = [ HandleFunc "/mutate"; LogPrintf line;
             ListenAndServeTLS addr "/tls/tls.crt" "/tls/tls.key" ]
           ++ match serveError H addr "/tls/tls.crt" "/tls/tls.key" with
              | None => []
              | Some err => [LogFatal err]
              end)
  ∧ (∀ e, InClusterConfig H = Err e →
       main H = [LogFatal ("Error creating in-cluster config: " +:+ e)])
  ∧ (∀ config e,
       InClusterConfig H = Ok config → NewForConfig H config = Err e →
       main H = [LogFatal ("Error creating clientset: " +:+ e)]).
Proof.
  unfold main.
  destruct (InClusterConfig H) as [config|e] eqn:Hc.
  2: { split; [| split; [| split]].
       - intros addr c k Hin. apply list_elem_of_singleton in Hin. done.
       - done.
       - by intros e' [= <-].
       - done. }
  destruct (NewForConfig H config) as [clientset|e] eqn:Hn.
  2: { split; [| split; [| split]].
       - intros addr c k Hin. apply list_elem_of_singleton in Hin. done.
       - intros c cl [= <-] Hcl. congruence.
       - done.
       - intros c e' [= <-] He. congruence. }
  split; [| split; [| split]].
  - intros addr c k Hin. apply elem_of_app in Hin as [Hin|Hin].
    + repeat (apply elem_of_cons in Hin as [Hin|Hin]; [try done |]).
      2: { by apply elem_of_nil in Hin. }
      injection Hin as -> -> ->.
      split; [eauto |]. split; [done |]. split; [done |].
      eexists. split; [done |]. split; [| done].
      destruct (decide (Getenv H "PORT" = "")); done.
    + destruct (serveError H _ _ _).
      * by apply list_elem_of_singleton in Hin.
      * by apply elem_of_nil in Hin.
  - intros c cl [= <-] Hcl. rewrite Hn in Hcl. injection Hcl as <-. eauto.
  - done.
  - intros c e [= <-] He. congruence.
Qed.

(** ** More about the marker loop *)

(** X16.  The marker loop looks at the keys only, and its answer does not
    depend on the order or the number of visits: two enumerations with the
    same keys give the same answer, whatever the values. *)
Theorem found_keys_only (entries1 entries2 : list (string * string)) :
  (∀ k, k ∈ entries1.*1 ↔ k ∈ entries2.*1) →
  found entries1 = found entries2.
Proof.
  assert (∀ entries, found entries = true
            ↔ ∃ k, k ∈ entries.*1 ∧ strings.HasPrefix k markerPrefix = true)
    as Hkeys.
  { intros entries. rewrite found_spec. split.
    - intros (k & v & Hin & Hp). exists k. split; [| done].
      apply list_elem_of_fmap. by exists (k, v).
    - intros (k & Hin & Hp).
      apply list_elem_of_fmap in Hin as ([k' v] & -> & Hin). eauto. }
  intros Hsame.
  destruct (found entries1) eqn:H1; destruct (found entries2) eqn:H2;
    try done.
  - apply Hkeys in H1 as (k & Hin & Hp).
    assert (found entries2 = true) as H; [| congruence].
    apply Hkeys. exists k. split; [by apply Hsame | done].
  - apply Hkeys in H2 as (k & Hin & Hp).
    assert (found entries1 = true) as H; [| congruence].
    apply Hkeys. exists k. split; [by apply Hsame | done].
Qed.

(** The marker is found behind another label as well as in front of it. *)
Lemma found_keys_only_witness :
  found [("app", "web"); ("rollouts-pod-template-hash", "x")]
  = found [("rollouts-pod-template-hash", "y"); ("app", "")].
Proof.
  apply found_keys_only. intros k. simpl.
  rewrite !elem_of_cons, !elem_of_nil. tauto.
Defined.
